(** * gemini-mcp-client-ts: schema translation, tool registry and dispatch loop

    A shallow embedding of [src/mcpToolRegistry.ts], [src/mcpClientService.ts],
    the tool-calling loop of [src/geminiService.ts], [src/configService.ts]
    and [src/userInputParser.ts].

    Conventions.
    - A JavaScript string is the list of its UTF-16 code units; the regular
      expressions of the source carry no [u] flag, so they see code units.
    - [undefined] fields are [option]s; an object used as a dictionary is an
      association list in enumeration order, written to with [obj_set].
    - [console.log]/[console.warn]/[console.error] output is diagnostic only
      and is left out.
    - The SDK client, the chat session, [new URL] and the clock are external;
      they are the fields of an [Environment] acting on an abstract [World]. *)

From Stdlib Require Import String Ascii DecimalString.
From Stdlib Require Import List Arith NArith Bool Lia.
Import ListNotations.

Set Implicit Arguments.
Set Warnings "-register-all".

(** ** JavaScript strings *)

Definition jsstring : Type := list N.

Module Js.

(** An ASCII literal of the source as a JavaScript string. *)
Definition lit (s : string) : jsstring :=
  map N_of_ascii (list_ascii_of_string s).

Fixpoint eqb (a b : jsstring) : bool :=
  match a, b with
  | [], [] => true
  | x :: a', y :: b' => N.eqb x y && eqb a' b'
  | _, _ => false
  end.

(** [s || fallback] on an optional string: [undefined] and [""] are falsy. *)
Definition or_else (s : option jsstring) (fallback : jsstring) : jsstring :=
  match s with
  | Some (c :: r) => c :: r
  | _ => fallback
  end.

(** String concatenation of a non-negative integral number, as in
    ["error-" + Date.now()]: the decimal digits. *)
Definition of_N (n : N) : jsstring :=
  lit (NilEmpty.string_of_uint (N.to_uint n)).

End Js.

Notation "` s" := (Js.lit s) (at level 1, format "` s").

(** ** Objects used as dictionaries *)

Section Dictionary.
Variable V : Type.

Definition dict : Type := list (jsstring * V).

Definition keys (d : dict) : list jsstring := map fst d.

(** [d[key] = v]: overwrite in place, or append a new own property. *)
Fixpoint obj_set (d : dict) (key : jsstring) (v : V) : dict :=
  match d with
  | [] => [(key, v)]
  | (k, x) :: rest =>
      if Js.eqb k key then (k, v) :: rest else (k, x) :: obj_set rest key v
  end.
End Dictionary.

(** ** Schemas (mcpToolRegistry.ts) *)

(** The [SchemaType] enum of the target model. *)
Inductive SchemaType : Type :=
  STRING | NUMBER | INTEGER | BOOLEAN | ARRAY | OBJECT.

Definition SchemaType_eqb (a b : SchemaType) : bool :=
  match a, b with
  | STRING, STRING | NUMBER, NUMBER | INTEGER, INTEGER
  | BOOLEAN, BOOLEAN | ARRAY, ARRAY | OBJECT, OBJECT => true
  | _, _ => false
  end.

(** The [type] member of a schema object: missing, one string, or an array
    whose entries are strings or [null] ([None]). *)
Inductive McpJsomSchemaType : Type :=
| TypeMissing
| TypeName (t : jsstring)
| TypeList (ts : list (option jsstring)).

(** The [items] member: one schema, or an array of schemas (tuple typing). *)
Inductive ItemsOf (A : Type) : Type :=
| ItemsSingle (s : A)
| ItemsTuple (l : list A).

Section Schemas.
(** Arbitrary JSON values that the code only passes along ([enum] literals,
    call arguments, tool payloads), and [String(v)] on them. *)
Variable Json : Type.
Variable String_of : Json -> jsstring.

(** [McpJsonSchema]: a boolean schema or a schema object. *)
Inductive McpJsonSchema : Type :=
| BooleanSchema (b : bool)
| SchemaObject
    (type : McpJsomSchemaType)
    (description : option jsstring)
    (enum : option (list Json))
    (properties : option (list (jsstring * McpJsonSchema)))
    (items : option (ItemsOf McpJsonSchema))
    (required : option (list jsstring)).

(** The target [Schema]; [ObjectSchema] is the same shape with [type]
    [OBJECT]. Members the code never sets stay [None]. *)
Inductive Schema : Type :=
  mkSchema {
      type : SchemaType;
      description : option jsstring;
      enum : option (list jsstring);
      items : option Schema;
      properties : option (list (jsstring * Schema));
      required : option (list jsstring) }.

Definition mcpTypeNameToGemini (t : jsstring) : option SchemaType :=
  if Js.eqb t `"string" then Some STRING
  else if Js.eqb t `"number" then Some NUMBER
  else if Js.eqb t `"integer" then Some INTEGER
  else if Js.eqb t `"boolean" then Some BOOLEAN
  else if Js.eqb t `"array" then Some ARRAY
  else if Js.eqb t `"object" then Some OBJECT
  else None.

(** Lines 30-48. On an array the first entry that is not [null] is taken
    and, when truthy, sent through the [switch]; ["null"], unknown names and
    a missing type give [undefined]. *)
Definition mcpSchemaTypeToGeminiSchemaType (mcpType : McpJsomSchemaType)
  : option SchemaType :=
  match mcpType with
  | TypeList ts =>
      match find (fun t => match t with Some _ => true | None => false end) ts with
      | Some (Some (c :: r)) => mcpTypeNameToGemini (c :: r)
      | _ => None
      end
  | TypeName t => mcpTypeNameToGemini t
  | TypeMissing => None
  end.

(** [!mcpSchema.type || mcpSchema.type !== "object"], negated. *)
Definition type_is_object (t : McpJsomSchemaType) : bool :=
  match t with
  | TypeName n => Js.eqb n `"object"
  | _ => false
  end.

Definition emptyObjectSchema : Schema :=
  mkSchema OBJECT None None None (Some []) (Some []).

(** The [for (const key in mcpProperties)] loop of lines 55-92 over a body
    that yields [None] on [continue]. *)
Definition forInProperties
    (body : jsstring -> McpJsonSchema -> option Schema)
    (mcpProperties : list (jsstring * McpJsonSchema)) : dict Schema :=
  fold_left
    (fun geminiProperties kv =>
       match body (fst kv) (snd kv) with
       | Some geminiProp => obj_set geminiProperties (fst kv) geminiProp
       | None => geminiProperties
       end)
    mcpProperties [].

(** [mcpPropSchema.items] as a condition: only the boolean schema [false]
    and a missing member are falsy. *)
Definition items_truthy (its : option (ItemsOf McpJsonSchema)) : bool :=
  match its with
  | None | Some (ItemsSingle (BooleanSchema false)) => false
  | Some _ => true
  end.

Definition is_some {A : Type} (o : option A) : bool :=
  match o with Some _ => true | None => false end.

Definition with_items (p : Schema) (itemSchema : Schema) : Schema :=
  mkSchema (type p) (description p) (enum p) (Some itemSchema)
    (properties p) (required p).

Definition with_properties (p : Schema) (nested : dict Schema)
    (req : option (list jsstring)) : Schema :=
  mkSchema (type p) (description p) (enum p) (items p) (Some nested)
    (match req with Some r => Some r | None => required p end).

(** Lines 95-113 ([translateMcpSchemaToGeminiSchema]) and the loop body of
    lines 57-90 ([translateProperty], [None] standing for [continue]). *)
Fixpoint translateMcpSchemaToGeminiSchema (mcpSchema : McpJsonSchema)
  : option Schema :=
  match mcpSchema with
  | BooleanSchema _ => None
  | SchemaObject ty _ _ props _ req =>
      if negb (type_is_object ty) then Some emptyObjectSchema
      else
        let geminiProperties :=
          option_map (forInProperties translateProperty) props in
        Some (mkSchema OBJECT None None None
                (Some (match geminiProperties with Some p => p | None => [] end))
                (Some (match req with Some r => r | None => [] end)))
  end

with translateProperty (key : jsstring) (mcpPropSchema : McpJsonSchema)
  : option Schema :=
  match mcpPropSchema with
  | BooleanSchema _ => None
  | SchemaObject ty desc en props its req =>
      match mcpSchemaTypeToGeminiSchemaType ty with
      | None => None
      | Some geminiType =>
          let geminiProp :=
            mkSchema geminiType
              (Some (Js.or_else desc (`"Parameter " ++ key)))
              (if is_some en && SchemaType_eqb geminiType STRING
               then option_map (map String_of) en else None)
              None None None in
          Some
            (if SchemaType_eqb geminiType ARRAY && items_truthy its then
               match its with
               | Some (ItemsSingle (SchemaObject _ _ _ _ _ _ as itemNode)) =>
                   match translateMcpSchemaToGeminiSchema itemNode with
                   | Some itemSchema => with_items geminiProp itemSchema
                   | None => geminiProp
                   end
               | _ => geminiProp
               end
             else if SchemaType_eqb geminiType OBJECT && is_some props then
               match props with
               | Some nested =>
                   with_properties geminiProp
                     (forInProperties translateProperty nested) req
               | None => geminiProp
               end
             else geminiProp)
      end
  end.

(** Lines 50-93. *)
Definition translateMcpPropertiesToGeminiProperties
    (mcpProperties : option (list (jsstring * McpJsonSchema)))
  : option (dict Schema) :=
  option_map (forInProperties translateProperty) mcpProperties.

(** ** Tool declarations and the registry table *)

Record ToolAnnotations : Type := { title : option jsstring }.

Record McpToolSchema : Type :=
  { tool_name : jsstring;
    tool_description : option jsstring;
    inputSchema : option McpJsonSchema;
    annotations : option ToolAnnotations }.

Record FunctionDeclaration : Type :=
  { name : jsstring;
    declaration_description : jsstring;
    parameters : Schema }.

Record DynamicGeminiToolMapping : Type :=
  { geminiFunctionDeclaration : FunctionDeclaration;
    mcpServerName : jsstring;
    mcpServerUrl : jsstring;
    mcpToolName : jsstring }.

Record McpServerConfig : Type :=
  { server_name : jsstring;
    server_url : jsstring;
    server_default : option bool }.

(** The character class [[a-zA-Z0-9_]] on one code unit. *)
Definition is_identifier_unit (c : N) : bool :=
  ((97 <=? c) && (c <=? 122) || (65 <=? c) && (c <=? 90)
   || (48 <=? c) && (c <=? 57) || (c =? 95))%N.

(** [s.replace(/[^a-zA-Z0-9_]/g, '_')]. *)
Definition sanitize (s : jsstring) : jsstring :=
  map (fun c => if is_identifier_unit c then c else 95%N) s.

Definition maxFunctionNameLength : nat := 63.

(** Lines 134-139. *)
Definition geminiFunctionNameFor (mcpServerName toolName : jsstring)
  : jsstring :=
  let sanitizedServerName := sanitize mcpServerName in
  let sanitizedMcpToolName := sanitize toolName in
  let geminiFunctionName :=
    sanitizedServerName ++ `"_" ++ sanitizedMcpToolName in
  if (maxFunctionNameLength <? length geminiFunctionName)%nat
  then firstn maxFunctionNameLength geminiFunctionName
  else geminiFunctionName.

(** Lines 115-152. A missing [inputSchema] and the boolean schema [false]
    are falsy, [true] has [typeof] ['boolean']; the remaining case is a
    schema object, whose [type] must be the string ["object"]. *)
Definition mcpToolToGeminiFunction (mcpTool : McpToolSchema)
    (mcpServerName : jsstring) : option FunctionDeclaration :=
  match inputSchema mcpTool with
  | None => None
  | Some (BooleanSchema _) => None
  | Some (SchemaObject ty _ _ _ _ _ as inputSchemaAsMcpJson) =>
      if negb (type_is_object ty) then None
      else
        let geminiFunctionName :=
          geminiFunctionNameFor mcpServerName (tool_name mcpTool) in
        match translateMcpSchemaToGeminiSchema inputSchemaAsMcpJson with
        | None => None
        | Some geminiParameters =>
            Some {| name := geminiFunctionName;
                    declaration_description :=
                      Js.or_else (tool_description mcpTool)
                        (`"Calls " ++ tool_name mcpTool
                           ++ `" on MCP server " ++ mcpServerName ++ `". "
                           ++ Js.or_else
                                (match annotations mcpTool with
                                 | Some a => title a
                                 | None => None
                                 end) []);
                    parameters := geminiParameters |}
        end
  end.

(** The inner [for (const mcpTool of mcpTools)] loop, lines 167-181. *)
Fixpoint mapMcpTools (mcpTools : list McpToolSchema)
    (serverConfig : McpServerConfig)
    (currentSessionTools : list DynamicGeminiToolMapping)
  : list DynamicGeminiToolMapping :=
  match mcpTools with
  | [] => currentSessionTools
  | mcpTool :: rest =>
      match mcpToolToGeminiFunction mcpTool (server_name serverConfig) with
      | Some geminiFuncDecl =>
          mapMcpTools rest serverConfig
            (currentSessionTools
               ++ [{| geminiFunctionDeclaration := geminiFuncDecl;
                      mcpServerName := server_name serverConfig;
                      mcpServerUrl := server_url serverConfig;
                      mcpToolName := tool_name mcpTool |}])
      | None => mapMcpTools rest serverConfig currentSessionTools
      end
  end.

(** Lines 197-203. *)
Definition getDynamicallyGeneratedGeminiFunctionDeclarations
    (currentSessionTools : list DynamicGeminiToolMapping)
  : list FunctionDeclaration :=
  map geminiFunctionDeclaration currentSessionTools.

Definition findDynamicallyMappedTool
    (currentSessionTools : list DynamicGeminiToolMapping)
    (geminiFunctionName : jsstring) : option DynamicGeminiToolMapping :=
  find (fun tool =>
          Js.eqb (name (geminiFunctionDeclaration tool)) geminiFunctionName)
    currentSessionTools.

End Schemas.

Arguments BooleanSchema {Json} b.

(** ** Errors and the outside world *)

Record JsError : Type := { message : jsstring }.

(** How a call ends: with a value, or with a raised error. *)
Inductive Outcome (A : Type) : Type :=
| Return (a : A)
| Throw (e : JsError).

Arguments Throw {A} e.

Section Services.
Variable Json : Type.
Variable String_of : Json -> jsstring.
Variable World : Type.

(** *** Wire and chat data *)

Inductive ContentPart : Type :=
| TextContent (text : jsstring)            (* {type: "text", text} *)
| OtherContent (kind : jsstring) (payload : Json).

Record CallToolResponse : Type :=
  { toolCallId : option jsstring;
    isError : option bool;
    content : list ContentPart }.

Record ListToolsResponse : Type :=
  { tools : option (list (McpToolSchema Json)) }.

Record FunctionCall : Type :=
  { call_name : jsstring;
    args : Json }.

(** The [response] member of a function response: the tool's result as it
    came, or [{error: ...}]. *)
Inductive FunctionResponseBody : Type :=
| ToolResult (mcpToolResult : CallToolResponse)
| ErrorBody (error : jsstring).

Inductive Part : Type :=
| FunctionResponse (fname : jsstring) (response : FunctionResponseBody)
| TextPart (text : jsstring)
| InlineData (mimeType data : jsstring).

(** [string | Part[]]. *)
Inductive Message : Type :=
| TextMessage (s : jsstring)
| PartsMessage (parts : list Part).

Record GenerateContentResponse : Type :=
  { functionCalls : option (list FunctionCall);
    text : option jsstring }.

(** The collaborators: [new URL(s)], the SDK [Client] bound to a server
    URL, the clock, the chat session and the user-input parser. *)
Record Environment : Type :=
  { URL_new : jsstring -> Outcome unit;
    Client_connect : jsstring -> World -> Outcome unit * World;
    Client_close : jsstring -> World -> Outcome unit * World;
    Client_listTools : jsstring -> World -> Outcome ListToolsResponse * World;
    Client_callTool :
      jsstring -> jsstring -> Json -> World -> Outcome CallToolResponse * World;
    Date_now : World -> N;
    ChatSession_sendMessage :
      Message -> World -> Outcome (option GenerateContentResponse) * World;
    processUserInput : jsstring -> World -> Outcome Message * World }.

Variable env : Environment.

(** *** GenericMcpClient (mcpClientService.ts) *)

Record GenericMcpClient : Type :=
  { serverUrl : jsstring;
    connected : bool }.

Definition set_connected (b : bool) (c : GenericMcpClient) : GenericMcpClient :=
  {| serverUrl := serverUrl c; connected := b |}.

(** Lines 29-35: [new URL] may raise. *)
Definition new_GenericMcpClient (serverUrlString : jsstring)
  : Outcome GenericMcpClient :=
  match URL_new env serverUrlString with
  | Throw e => Throw e
  | Return _ => Return {| serverUrl := serverUrlString; connected := false |}
  end.

(** Lines 37-47. *)
Definition connect (this : GenericMcpClient) (w : World)
  : Outcome unit * GenericMcpClient * World :=
  if connected this then (Return tt, this, w)
  else
    match Client_connect env (serverUrl this) w with
    | (Return _, w') => (Return tt, set_connected true this, w')
    | (Throw error, w') => (Throw error, set_connected false this, w')
    end.

(** Lines 49-59. *)
Definition disconnect (this : GenericMcpClient) (w : World)
  : Outcome unit * GenericMcpClient * World :=
  if negb (connected this) then (Return tt, this, w)
  else
    let (_, w') := Client_close env (serverUrl this) w in
    (Return tt, set_connected false this, w').

Definition isConnected (this : GenericMcpClient) : bool := connected this.

Definition notConnectedError : JsError :=
  {| message := `"Not connected to MCP server. Cannot call tool." |}.

(** The object built in the [catch] of [callMcpTool], lines 79-83. *)
Definition errorToolResponse (now : N) (mcpToolName : jsstring)
    (error : JsError) : CallToolResponse :=
  {| toolCallId := Some (`"error-" ++ Js.of_N now);
     isError := Some true;
     content :=
       [TextContent
          (`"Error calling MCP tool " ++ mcpToolName ++ `": "
             ++ message error)] |}.

(** Lines 65-85. *)
Definition callMcpTool (this : GenericMcpClient) (mcpToolName : jsstring)
    (mcpArguments : Json) (w : World) : Outcome CallToolResponse * World :=
  if negb (connected this) then (Throw notConnectedError, w)
  else
    match Client_callTool env (serverUrl this) mcpToolName mcpArguments w with
    | (Return r, w') => (Return r, w')
    | (Throw error, w') =>
        (Return (errorToolResponse (Date_now env w') mcpToolName error), w')
    end.

(** Lines 91-104; [None] is [null]. *)
Definition listMcpTools (this : GenericMcpClient) (w : World)
  : option (list (McpToolSchema Json)) * World :=
  if negb (connected this) then (None, w)
  else
    match Client_listTools env (serverUrl this) w with
    | (Return response, w') =>
        (Some (match tools response with Some ts => ts | None => [] end), w')
    | (Throw _, w') => (None, w')
    end.

(** *** Discovery (mcpToolRegistry.ts, lines 154-195) *)

Definition Table : Type := list DynamicGeminiToolMapping.

(** The [try] block of one server, lines 162-185, after which the [catch]
    has swallowed whatever [connect] raised. *)
Definition discoverOnServer (serverConfig : McpServerConfig)
    (mcpClient : GenericMcpClient) (currentSessionTools : Table) (w : World)
  : Table * GenericMcpClient * World :=
  match connect mcpClient w with
  | (Throw _, mcpClient, w) => (currentSessionTools, mcpClient, w)
  | (Return _, mcpClient, w) =>
      if isConnected mcpClient then
        match listMcpTools mcpClient w with
        | (Some (t :: ts), w) =>
            (mapMcpTools String_of (t :: ts) serverConfig currentSessionTools,
             mcpClient, w)
        | (_, w) => (currentSessionTools, mcpClient, w)
        end
      else (currentSessionTools, mcpClient, w)
  end.

(** The [for (const serverConfig of configuredServers)] loop. *)
Fixpoint discoverServers (configuredServers : list McpServerConfig)
    (currentSessionTools : Table) (w : World)
  : Outcome unit * Table * World :=
  match configuredServers with
  | [] => (Return tt, currentSessionTools, w)
  | serverConfig :: rest =>
      match new_GenericMcpClient (server_url serverConfig) with
      | Throw e => (Throw e, currentSessionTools, w)
      | Return mcpClient =>
          match discoverOnServer serverConfig mcpClient currentSessionTools w with
          | (currentSessionTools, mcpClient, w) =>
              (* finally *)
              let w :=
                if isConnected mcpClient
                then snd (disconnect mcpClient w) else w in
              discoverServers rest currentSessionTools w
          end
      end
  end.

(** [discoverAndMapAllMcpTools]: the table held before the call comes in,
    the table held after it goes out. *)
Definition discoverAndMapAllMcpTools (configuredServers : list McpServerConfig)
    (currentSessionTools : Table) (w : World)
  : Outcome unit * Table * World :=
  let currentSessionTools : Table := [] in
  discoverServers configuredServers currentSessionTools w.

(** The tables a session can hold: the initial [[]] and whatever a
    discovery pass left. *)
Inductive table_reachable : Table -> Prop :=
| reachable_initial : table_reachable []
| reachable_discovered servers previous w o table w' :
    table_reachable previous ->
    discoverAndMapAllMcpTools servers previous w = (o, table, w') ->
    table_reachable table.

(** *** The tool-calling loop (geminiService.ts, lines 96-176) *)

Definition maxAttempts : nat := 5.

Definition noResponseMessage : jsstring :=
  `"I'm sorry, I couldn't get a response.".
Definition emptyResponseMessage : jsstring :=
  `"I received a response, but it was empty.".
Definition exhaustedMessage : jsstring :=
  `"I tried several times, but I'm having trouble completing your request with tools.".

(** The entry pushed for a name the registry does not know, lines 123-128. *)
Definition notMappedResponse (call : FunctionCall) : Part :=
  FunctionResponse (call_name call)
    (ErrorBody
       (`"Function " ++ call_name call ++ `" is not implemented or mapped.")).

(** The [try]/[catch] of one mapped call, lines 133-154. *)
Definition executeMappedCall (call : FunctionCall)
    (mappedTool : DynamicGeminiToolMapping) (mcpClient : GenericMcpClient)
    (w : World) : Part * GenericMcpClient * World :=
  let caught (e : JsError) :=
    FunctionResponse (call_name call)
      (ErrorBody
         (`"Error executing MCP tool " ++ mcpToolName mappedTool ++ `": "
            ++ message e)) in
  match connect mcpClient w with
  | (Throw e, mcpClient, w) => (caught e, mcpClient, w)
  | (Return _, mcpClient, w) =>
      let mcpArgs := args call in
      match callMcpTool mcpClient (mcpToolName mappedTool) mcpArgs w with
      | (Return mcpToolResult, w) =>
          (FunctionResponse (call_name call) (ToolResult mcpToolResult),
           mcpClient, w)
      | (Throw e, w) => (caught e, mcpClient, w)
      end
  end.

(** The [for (const call of functionCalls)] loop, lines 116-160. *)
Fixpoint executeFunctionCalls (currentSessionTools : Table)
    (functionCalls : list FunctionCall) (toolResponses : list Part)
    (w : World) : Outcome (list Part) * World :=
  match functionCalls with
  | [] => (Return toolResponses, w)
  | call :: rest =>
      match findDynamicallyMappedTool currentSessionTools (call_name call) with
      | None =>
          executeFunctionCalls currentSessionTools rest
            (toolResponses ++ [notMappedResponse call]) w
      | Some mappedTool =>
          match new_GenericMcpClient (mcpServerUrl mappedTool) with
          | Throw e => (Throw e, w)
          | Return mcpClient =>
              match executeMappedCall call mappedTool mcpClient w with
              | (part, mcpClient, w) =>
                  (* finally *)
                  let w :=
                    if isConnected mcpClient
                    then snd (disconnect mcpClient w) else w in
                  executeFunctionCalls currentSessionTools rest
                    (toolResponses ++ [part]) w
              end
          end
      end
  end.

(** The [while (attempt < maxAttempts)] loop and the two statements after
    it. [fuel] bounds the number of times the loop condition is tested;
    [None] means that the bound was too small. *)
Fixpoint toolCallingLoop (fuel : nat) (currentSessionTools : Table)
    (attempt : nat) (currentMessageForGemini : Message) (w : World)
  : option (Outcome jsstring * World) :=
  match fuel with
  | O => None
  | S fuel =>
      if attempt <? maxAttempts then
        let attempt := attempt + 1 in
        match ChatSession_sendMessage env currentMessageForGemini w with
        | (Throw e, w) => Some (Throw e, w)
        | (Return None, w) => Some (Return noResponseMessage, w)
        | (Return (Some response), w) =>
            match functionCalls response with
            | Some (c :: cs) =>
                match executeFunctionCalls currentSessionTools (c :: cs) [] w with
                | (Throw e, w) => Some (Throw e, w)
                | (Return toolResponses, w) =>
                    toolCallingLoop fuel currentSessionTools attempt
                      (PartsMessage toolResponses) w
                end
            | _ =>
                match text response with
                | None => Some (Return emptyResponseMessage, w)
                | Some t => Some (Return t, w)
                end
            end
        end
      else Some (Return exhaustedMessage, w)
  end.

(** Lines 88-176. *)
Definition sendMessageToGemini (fuel : nat) (currentSessionTools : Table)
    (userInput : jsstring) (w : World) : option (Outcome jsstring * World) :=
  match processUserInput env userInput w with
  | (Throw e, w) => Some (Throw e, w)
  | (Return currentMessageForGemini, w) =>
      toolCallingLoop fuel currentSessionTools 0 currentMessageForGemini w
  end.

End Services.

Arguments TextContent {Json} text.
Arguments ErrorBody {Json} error.
Arguments TextPart {Json} text.
Arguments InlineData {Json} mimeType data.
Arguments TextMessage {Json} s.
Arguments errorToolResponse {Json} now mcpToolName error.

(** ** Sample data

    A small JSON literal type with its [String] coercion, and inputs on which
    the definitions above are run further down. *)

Inductive JsonLit : Type :=
| JsonNull
| JsonBool (b : bool)
| JsonString (s : jsstring).

Definition JsonLit_String (j : JsonLit) : jsstring :=
  match j with
  | JsonNull => `"null"
  | JsonBool true => `"true"
  | JsonBool false => `"false"
  | JsonString s => s
  end.

Definition translate : McpJsonSchema JsonLit -> option Schema :=
  translateMcpSchemaToGeminiSchema JsonLit_String.

(** [{type: "string", description: "City"}] *)
Definition citySchema : McpJsonSchema JsonLit :=
  SchemaObject (TypeName `"string") (Some `"City") None None None None.

(** [{type: "object", properties: {city: {...}, anything: true}, required: ["city", "anything"]}] *)
Definition weatherSchema : McpJsonSchema JsonLit :=
  SchemaObject (TypeName `"object") None None
    (Some [(`"city", citySchema); (`"anything", BooleanSchema true)])
    None (Some [`"city"; `"anything"]).

(** [{type: "object", required: ["lat"]}]: an object-typed property that
    declares [required] but no [properties]. *)
Definition bareObjectProperty : McpJsonSchema JsonLit :=
  SchemaObject (TypeName `"object") None None None None (Some [`"lat"]).

(** [{type: "object", properties: {where: {type: "object", required: ["lat"]}}}] *)
Definition placeSchema : McpJsonSchema JsonLit :=
  SchemaObject (TypeName `"object") None None
    (Some [(`"where", bareObjectProperty)]) None None.

(** ** Vocabulary of the statements *)

(** A code unit in [[A-Za-z0-9_]]. *)
Definition identifier_unit (c : N) : Prop :=
  (97 <= c <= 122 \/ 65 <= c <= 90 \/ 48 <= c <= 57 \/ c = 95)%N.

(** A whole string matching [[A-Za-z0-9_]+]. *)
Definition matches_identifier (s : jsstring) : Prop :=
  s <> [] /\ Forall identifier_unit s.

(** An [inputSchema] that is absent, a boolean schema, or a schema object
    whose [type] is not the string ["object"]. *)
Definition inputSchema_not_object (Json : Type)
    (s : option (McpJsonSchema Json)) : Prop :=
  match s with
  | None => True
  | Some (BooleanSchema _) => True
  | Some (SchemaObject ty _ _ _ _ _) => ty <> TypeName `"object"
  end.

(** The mapping that discovery records for a translated tool. *)
Definition mappingOf (Json : Type) (serverConfig : McpServerConfig)
    (mcpTool : McpToolSchema Json) (geminiFuncDecl : FunctionDeclaration)
  : DynamicGeminiToolMapping :=
  {| geminiFunctionDeclaration := geminiFuncDecl;
     mcpServerName := server_name serverConfig;
     mcpServerUrl := server_url serverConfig;
     mcpToolName := tool_name mcpTool |}.

(** [{name: "echo", inputSchema: true}], [{name: "ping"}] and
    [{name: "forecast", inputSchema: weatherSchema}] on server ["my server"]. *)
Definition echoTool : McpToolSchema JsonLit :=
  {| tool_name := `"echo"; tool_description := None;
     inputSchema := Some (BooleanSchema true); annotations := None |}.

Definition pingTool : McpToolSchema JsonLit :=
  {| tool_name := `"ping"; tool_description := None;
     inputSchema := None; annotations := None |}.

Definition forecastTool : McpToolSchema JsonLit :=
  {| tool_name := `"forecast"; tool_description := Some `"Weather forecast";
     inputSchema := Some weatherSchema; annotations := None |}.

Definition myServer : McpServerConfig :=
  {| server_name := `"my server"; server_url := `"http://localhost:8080/mcp";
     server_default := None |}.

(** A server is out of reach when every connection attempt is refused, or
    every listing request fails. *)
Definition server_fails (Json World : Type) (env : Environment Json World)
    (serverConfig : McpServerConfig) : Prop :=
  (forall w, exists e w',
      Client_connect env (server_url serverConfig) w = (Throw e, w'))
  \/ (forall w, exists e w',
         Client_listTools env (server_url serverConfig) w = (Throw e, w')).

(** A mapping made from a tool that one of [servers] listed: the server's URL
    parsed, the listing named the tool, and the tool translated. *)
Definition built_from (Json World : Type) (String_of : Json -> jsstring)
    (env : Environment Json World) (servers : list McpServerConfig)
    (m : DynamicGeminiToolMapping) : Prop :=
  exists serverConfig mcpTool geminiFuncDecl w w' response listed,
    In serverConfig servers
    /\ URL_new env (server_url serverConfig) = Return tt
    /\ Client_listTools env (server_url serverConfig) w = (Return response, w')
    /\ tools response = Some listed
    /\ In mcpTool listed
    /\ mcpToolToGeminiFunction String_of mcpTool (server_name serverConfig)
       = Some geminiFuncDecl
    /\ m = mappingOf serverConfig mcpTool geminiFuncDecl.

(** A model that asks for at least one function call whatever it is sent. *)
Definition always_requests_calls (Json World : Type)
    (env : Environment Json World) : Prop :=
  forall msg w, exists response c cs w',
    ChatSession_sendMessage env msg w = (Return (Some response), w')
    /\ functionCalls response = Some (c :: cs).

(** *** A sample world

    The world is the trace of requests made so far; the clock advances with
    it. Server [down.example] refuses connections, [flaky.example] fails to
    list, [empty.example] lists nothing, any other server lists the three
    sample tools and runs ["forecast"] only. The sample model asks for
    ["my_server_forecast"] and an unknown ["nope"] on every turn. *)

Inductive Request : Type :=
| ReqConnect (url : jsstring)
| ReqClose (url : jsstring)
| ReqListTools (url : jsstring)
| ReqCallTool (url toolName : jsstring)
| ReqSendMessage.

Definition Trace : Type := list Request.

Definition sunny : CallToolResponse JsonLit :=
  {| toolCallId := None; isError := None; content := [TextContent `"sunny"] |}.

Definition sampleCalls : list (FunctionCall JsonLit) :=
  [ {| call_name := `"my_server_forecast"; args := JsonString `"Oslo" |};
    {| call_name := `"nope"; args := JsonNull |} ].

Definition sampleEnv : Environment JsonLit Trace :=
  {| URL_new := fun s =>
       if Js.eqb s `"not a url"
       then Throw {| message := `"Invalid URL" |} else Return tt;
     Client_connect := fun url w =>
       if Js.eqb url `"http://down.example/mcp"
       then (Throw {| message := `"connect ECONNREFUSED" |}, w ++ [ReqConnect url])
       else (Return tt, w ++ [ReqConnect url]);
     Client_close := fun url w => (Return tt, w ++ [ReqClose url]);
     Client_listTools := fun url w =>
       (if Js.eqb url `"http://flaky.example/mcp"
        then Throw {| message := `"Request timed out" |}
        else if Js.eqb url `"http://empty.example/mcp"
             then Return {| tools := Some [] |}
             else Return {| tools := Some [pingTool; echoTool; forecastTool] |},
        w ++ [ReqListTools url]);
     Client_callTool := fun url toolName _ w =>
       (if Js.eqb toolName `"forecast"
        then Return sunny
        else Throw {| message := `"Unknown tool" |},
        w ++ [ReqCallTool url toolName]);
     Date_now := fun w => (1700000000000 + N.of_nat (length w))%N;
     ChatSession_sendMessage := fun _ w =>
       (Return (Some {| functionCalls := Some sampleCalls; text := None |}),
        w ++ [ReqSendMessage]);
     processUserInput := fun userInput w => (Return (TextMessage userInput), w) |}.

Definition downServer : McpServerConfig :=
  {| server_name := `"down"; server_url := `"http://down.example/mcp";
     server_default := None |}.

Definition flakyServer : McpServerConfig :=
  {| server_name := `"flaky"; server_url := `"http://flaky.example/mcp";
     server_default := None |}.

Definition emptyServer : McpServerConfig :=
  {| server_name := `"empty"; server_url := `"http://empty.example/mcp";
     server_default := None |}.

Definition sampleTable : Table :=
  snd (fst (discoverAndMapAllMcpTools JsonLit_String sampleEnv
              [downServer; myServer] [] [])).

Definition connectedClient : GenericMcpClient :=
  {| serverUrl := `"http://localhost:8080/mcp"; connected := true |}.

Definition freshClient : GenericMcpClient :=
  {| serverUrl := `"http://localhost:8080/mcp"; connected := false |}.

(** ** Further vocabulary and sample data *)

(** A property schema that the loop keeps: a schema object whose [type]
    resolves to a target type. *)
Definition translatable (Json : Type) (s : McpJsonSchema Json) : bool :=
  match s with
  | BooleanSchema _ => false
  | SchemaObject ty _ _ _ _ _ => is_some (mcpSchemaTypeToGeminiSchemaType ty)
  end.




(** Two tools of one server whose names differ only in a character that
    sanitizing replaces. *)
Definition dotTool : McpToolSchema JsonLit :=
  {| tool_name := `"get.x"; tool_description := Some `"dot";
     inputSchema := Some weatherSchema; annotations := None |}.

Definition dashTool : McpToolSchema JsonLit :=
  {| tool_name := `"get-x"; tool_description := Some `"dash";
     inputSchema := Some weatherSchema; annotations := None |}.

Definition collidingTable : Table :=
  mapMcpTools JsonLit_String [dotTool; dashTool] myServer [].

Definition longServerName : jsstring :=
  `"a-server-name-that-alone-is-longer-than-the-sixty-three-code-units-kept".

Definition badUrlServer : McpServerConfig :=
  {| server_name := `"bad"; server_url := `"not a url"; server_default := None |}.


(** A model that answers in text and asks for nothing, on the sample
    servers. *)
Definition answeringEnv : Environment JsonLit Trace :=
  {| URL_new := URL_new sampleEnv;
     Client_connect := Client_connect sampleEnv;
     Client_close := Client_close sampleEnv;
     Client_listTools := Client_listTools sampleEnv;
     Client_callTool := Client_callTool sampleEnv;
     Date_now := Date_now sampleEnv;
     ChatSession_sendMessage := fun _ w =>
       (Return (Some {| functionCalls := Some []; text := Some `"hello" |}),
        w ++ [ReqSendMessage]);
     processUserInput := processUserInput sampleEnv |}.

(** A tool the sample servers list nowhere and refuse to run, registered
    once on a server that answers and once on the one that refuses
    connections. *)
Definition boomTool : McpToolSchema JsonLit :=
  {| tool_name := `"boom"; tool_description := None;
     inputSchema := Some weatherSchema; annotations := None |}.

Definition failingTable : Table :=
  mapMcpTools JsonLit_String [boomTool] myServer []
    ++ mapMcpTools JsonLit_String [boomTool] downServer [].

(** *** Counting requests

    [tallying env] behaves as [env] and keeps, beside the world, the number
    of model calls made, of connections opened and of close requests sent. *)

Record Tally : Type :=
  { sent : nat;
    opened : nat;
    closed : nat }.

Definition tally_sent (t : Tally) : Tally :=
  {| sent := S (sent t); opened := opened t; closed := closed t |}.

Definition tally_opened (t : Tally) : Tally :=
  {| sent := sent t; opened := S (opened t); closed := closed t |}.

Definition tally_closed (t : Tally) : Tally :=
  {| sent := sent t; opened := opened t; closed := S (closed t) |}.

Definition tallying (Json World : Type) (env : Environment Json World)
  : Environment Json (World * Tally) :=
  {| URL_new := URL_new env;
     Client_connect := fun url wt =>
       let (o, w') := Client_connect env url (fst wt) in
       (o, (w', match o with
                | Return _ => tally_opened (snd wt)
                | Throw _ => snd wt
                end));
     Client_close := fun url wt =>
       let (o, w') := Client_close env url (fst wt) in
       (o, (w', tally_closed (snd wt)));
     Client_listTools := fun url wt =>
       let (o, w') := Client_listTools env url (fst wt) in (o, (w', snd wt));
     Client_callTool := fun url toolName arguments wt =>
       let (o, w') := Client_callTool env url toolName arguments (fst wt) in
       (o, (w', snd wt));
     Date_now := fun wt => Date_now env (fst wt);
     ChatSession_sendMessage := fun msg wt =>
       let (o, w') := ChatSession_sendMessage env msg (fst wt) in
       (o, (w', tally_sent (snd wt)));
     processUserInput := fun userInput wt =>
       let (o, w') := processUserInput env userInput (fst wt) in
       (o, (w', snd wt)) |}.

Definition noTally : Tally := {| sent := 0; opened := 0; closed := 0 |}.


(** ** The server list (configService.ts)

    The [Conf] store holds two keys. Reading gives what was last written;
    writing a key validates and saves the whole store, which may raise (a
    schema violation, a failed file write) and then changes nothing. *)

Record ConfigStore : Type :=
  { store_servers : list McpServerConfig;
    store_defaultServerName : option jsstring }.

(** The [defaults] of the store. *)
Definition emptyStore : ConfigStore :=
  {| store_servers := []; store_defaultServerName := None |}.

Section ConfigService.
(** [new URL(url)], and whether [Conf] accepts and saves a store. *)
Variable URL_new : jsstring -> Outcome unit.
Variable Conf_save : ConfigStore -> Outcome unit.

(** [config.set(key, value)] seen on the whole store. *)
Definition config_set (updated current : ConfigStore)
  : Outcome unit * ConfigStore :=
  match Conf_save updated with
  | Return _ => (Return tt, updated)
  | Throw e => (Throw e, current)
  end.

(** [servers.some(s => s.name === name)] *)
Definition has_server (name : jsstring) (servers : list McpServerConfig) : bool :=
  existsb (fun s => Js.eqb (server_name s) name) servers.

(** [setDefaultServer], lines 100-108. *)
Definition setDefaultServer (name : jsstring) (config : ConfigStore)
  : Outcome unit * ConfigStore :=
  let servers := store_servers config in
  if negb (has_server name servers) then (Return tt, config)
  else
    config_set {| store_servers := store_servers config;
                  store_defaultServerName := Some name |} config.

(** [addServer], lines 48-66. *)
Definition addServer (name url : jsstring) (config : ConfigStore)
  : Outcome unit * ConfigStore :=
  let servers := store_servers config in
  if has_server name servers then (Return tt, config)
  else
    match URL_new url with
    | Throw _ => (Return tt, config)
    | Return _ =>
        let servers :=
          servers ++ [{| server_name := name; server_url := url;
                         server_default := None |}] in
        match config_set {| store_servers := servers;
                            store_defaultServerName :=
                              store_defaultServerName config |} config with
        | (Throw e, config) => (Throw e, config)
        | (Return _, config) =>
            if length servers =? 1 then setDefaultServer name config
            else (Return tt, config)
        end
    end.

(** [listServers], lines 68-72: each server with its [default] flag. *)
Definition listServers (config : ConfigStore) : list McpServerConfig :=
  let servers := store_servers config in
  let defaultName := store_defaultServerName config in
  map (fun s =>
         {| server_name := server_name s;
            server_url := server_url s;
            server_default :=
              Some (match defaultName with
                    | Some d => Js.eqb (server_name s) d
                    | None => false
                    end) |})
    servers.

(** [getServer], lines 74-77. *)
Definition getServer (name : jsstring) (config : ConfigStore)
  : option McpServerConfig :=
  find (fun s => Js.eqb (server_name s) name) (listServers config).

(** [removeServer], lines 79-98. *)
Definition removeServer (name : jsstring) (config : ConfigStore)
  : Outcome unit * ConfigStore :=
  let servers := store_servers config in
  if negb (has_server name servers) then (Return tt, config)
  else
    let servers :=
      filter (fun s => negb (Js.eqb (server_name s) name)) servers in
    match config_set {| store_servers := servers;
                        store_defaultServerName :=
                          store_defaultServerName config |} config with
    | (Throw e, config) => (Throw e, config)
    | (Return _, config) =>
        if match store_defaultServerName config with
           | Some d => Js.eqb d name
           | None => false
           end
        then
          config_set {| store_servers := store_servers config;
                        store_defaultServerName :=
                          match servers with
                          | s :: _ => Some (server_name s)
                          | [] => None
                          end |} config
        else (Return tt, config)
    end.

(** [getDefaultServer], lines 110-114; [null] and [""] are falsy. *)
Definition getDefaultServer (config : ConfigStore) : option McpServerConfig :=
  match store_defaultServerName config with
  | Some (c :: d) => getServer (c :: d) config
  | _ => None
  end.

(** What every store keeps, whether writes succeed or not: names are
    pairwise distinct, URLs parse, no [default] flag is stored. *)
Definition store_sound (config : ConfigStore) : Prop :=
  NoDup (map server_name (store_servers config))
  /\ Forall (fun s => URL_new (server_url s) = Return tt
                      /\ server_default s = None) (store_servers config).

(** What a store keeps as long as no write fails: the default is unset
    exactly when there is no server, and otherwise names one of them. *)
Definition default_tracked (config : ConfigStore) : Prop :=
  match store_defaultServerName config with
  | None => store_servers config = []
  | Some d => In d (map server_name (store_servers config))
  end.

(** One command of the [servers] sub-commands. *)
Inductive ConfigCommand : Type :=
| CmdAdd (name url : jsstring)
| CmdRemove (name : jsstring)
| CmdSetDefault (name : jsstring).

Definition runCommand (c : ConfigCommand) (config : ConfigStore)
  : Outcome unit * ConfigStore :=
  match c with
  | CmdAdd name url => addServer name url config
  | CmdRemove name => removeServer name config
  | CmdSetDefault name => setDefaultServer name config
  end.

End ConfigService.

(** A store that always saves. *)
Definition alwaysSaves (config : ConfigStore) : Outcome unit := Return tt.

Definition twoServerStore : ConfigStore :=
  snd (addServer (URL_new sampleEnv) alwaysSaves `"flaky" `"http://flaky.example/mcp"
         (snd (addServer (URL_new sampleEnv) alwaysSaves `"my server"
                 `"http://localhost:8080/mcp" emptyStore))).


(** A history of [servers] sub-commands run one after the other, each
    against the store the previous one left (also when it raised). *)
Definition runCommands (URL_new : jsstring -> Outcome unit)
    (Conf_save : ConfigStore -> Outcome unit)
    (commands : list ConfigCommand) (config : ConfigStore) : ConfigStore :=
  fold_left (fun config c => snd (runCommand URL_new Conf_save c config))
    commands config.

(** A store that refuses any list of more than one server. *)
Definition savesOneServer (config : ConfigStore) : Outcome unit :=
  if length (store_servers config) <=? 1 then Return tt
  else Throw {| message := `"ENOSPC: no space left on device" |}.

Definition sampleCommands : list ConfigCommand :=
  [ CmdAdd `"my server" `"http://localhost:8080/mcp";
    CmdAdd `"bad" `"not a url";
    CmdAdd `"my server" `"http://empty.example/mcp";
    CmdAdd `"flaky" `"http://flaky.example/mcp";
    CmdSetDefault `"flaky";
    CmdRemove `"flaky" ].


(** ** User input (userInputParser.ts)

    [String.prototype.toLowerCase] and the file system are external: the
    first is a function on strings, the second a snapshot that gives, for a
    path, the file's content in base64 or the error [readFile] rejects
    with. *)

Module UserInputParser.

(** A piece of the input: literal text, or a [localfile(...)] directive with
    its captured path and its full text. *)
Inductive Segment : Type :=
| TextSegment (content : jsstring)
| FileSegment (filePath originalMatch : jsstring).

Definition nonempty (s : jsstring) : bool :=
  match s with [] => false | _ :: _ => true end.

(** [s] without the prefix [p], when it starts with it. *)
Fixpoint strip_prefix (p s : jsstring) : option jsstring :=
  match p, s with
  | [], _ => Some s
  | x :: p', y :: s' => if N.eqb x y then strip_prefix p' s' else None
  | _ :: _, [] => None
  end.

(** The longest run of code units other than [')'], and what follows it. *)
Fixpoint span_before_paren (s : jsstring) : jsstring * jsstring :=
  match s with
  | [] => ([], [])
  | c :: r =>
      if N.eqb c 41 then ([], s)
      else let (run, tail) := span_before_paren r in (c :: run, tail)
  end.

(** A match of [/localfile\(([^)]+)\)/] starting at the head of [s]: the
    captured path and what follows the match. The class [[^)]] cannot step
    over a [')'], so the capture is the whole run up to the first [')']. *)
Definition match_here (s : jsstring) : option (jsstring * jsstring) :=
  match strip_prefix `"localfile(" s with
  | None => None
  | Some body =>
      match span_before_paren body with
      | (c :: path, _ :: after) => Some (c :: path, after)
      | _ => None
      end
  end.

(** [fileRegex.exec] from the start of [s]: the text before the leftmost
    match, the captured path, and the text after the match. *)
Fixpoint findDirective (s : jsstring) : option (jsstring * jsstring * jsstring) :=
  match match_here s with
  | Some (path, after) => Some ([], path, after)
  | None =>
      match s with
      | [] => None
      | c :: r =>
          match findDirective r with
          | Some (before, path, after) => Some (c :: before, path, after)
          | None => None
          end
      end
  end.

(** The [while] loop of lines 176-201 and the [if] after it, on what is left
    of the input after [lastIndex]. [fuel] bounds the number of [exec]
    calls; [None] means that it was too small. *)
Fixpoint scanSegments (fuel : nat) (rest : jsstring) : option (list Segment) :=
  match fuel with
  | O => None
  | S fuel =>
      match findDirective rest with
      | None => Some (if nonempty rest then [TextSegment rest] else [])
      | Some (before, filePath, after) =>
          match scanSegments fuel after with
          | None => None
          | Some segments =>
              Some ((if nonempty before then [TextSegment before] else [])
                      ++ FileSegment filePath (`"localfile(" ++ filePath ++ `")")
                      :: segments)
          end
      end
  end.

Definition is_file_segment (s : Segment) : bool :=
  match s with FileSegment _ _ => true | TextSegment _ => false end.

Section Parser.
Variable Json : Type.
Variable toLowerCase : jsstring -> jsstring.
Variable readFile_base64 : jsstring -> Outcome jsstring.

(** [filePath.split('.').pop()]: what follows the last ['.'], the whole
    path when it has none. *)
Fixpoint lastDotSegment (filePath current : jsstring) : jsstring :=
  match filePath with
  | [] => current
  | c :: r =>
      if N.eqb c 46 then lastDotSegment r [] else lastDotSegment r (current ++ [c])
  end.

Definition mimeTypeOfExtension (extension : jsstring) : jsstring :=
  let ext_is e := Js.eqb extension e in
  if ext_is `"txt" then `"text/plain"
  else if ext_is `"json" then `"application/json"
  else if ext_is `"xml" then `"application/xml"
  else if ext_is `"csv" then `"text/csv"
  else if ext_is `"md" then `"text/markdown"
  else if ext_is `"html" then `"text/html"
  else if ext_is `"css" then `"text/css"
  else if ext_is `"js" then `"application/javascript"
  else if ext_is `"ts" then `"application/typescript"
  else if ext_is `"png" then `"image/png"
  else if ext_is `"jpg" || ext_is `"jpeg" then `"image/jpeg"
  else if ext_is `"gif" then `"image/gif"
  else if ext_is `"webp" then `"image/webp"
  else if ext_is `"svg" then `"image/svg+xml"
  else if ext_is `"heic" then `"image/heic"
  else if ext_is `"heif" then `"image/heif"
  else if ext_is `"pdf" then `"application/pdf"
  else if ext_is `"doc" then `"application/msword"
  else if ext_is `"docx" then
    `"application/vnd.openxmlformats-officedocument.wordprocessingml.document"
  else if ext_is `"xls" then `"application/vnd.ms-excel"
  else if ext_is `"xlsx" then
    `"application/vnd.openxmlformats-officedocument.spreadsheetml.sheet"
  else if ext_is `"ppt" then `"application/vnd.ms-powerpoint"
  else if ext_is `"pptx" then
    `"application/vnd.openxmlformats-officedocument.presentationml.presentation"
  else if ext_is `"mp3" then `"audio/mpeg"
  else if ext_is `"wav" then `"audio/wav"
  else if ext_is `"ogg" then `"audio/ogg"
  else if ext_is `"mp4" then `"video/mp4"
  else if ext_is `"webm" then `"video/webm"
  else if ext_is `"mov" then `"video/quicktime"
  else `"application/octet-stream".

(** [determineMimeType], lines 123-163. *)
Definition determineMimeType (filePath : jsstring) : jsstring :=
  let extension := toLowerCase (lastDotSegment filePath []) in
  mimeTypeOfExtension extension.

(** What the promise of one directive resolves to, lines 185-198. *)
Definition resolveFilePart (filePath originalMatch : jsstring) : Part Json :=
  match readFile_base64 filePath with
  | Return base64Data => InlineData (determineMimeType filePath) base64Data
  | Throw error =>
      TextPart
        (`"[File Error: Could not load '" ++ filePath ++ `"'. Reason: "
           ++ message error ++ `". Original placeholder: '" ++ originalMatch
           ++ `"']")
  end.

(** Lines 216-223. *)
Definition assembleParts (segments : list Segment) : list (Part Json) :=
  map (fun segment =>
         match segment with
         | TextSegment content => TextPart content
         | FileSegment filePath originalMatch =>
             resolveFilePart filePath originalMatch
         end) segments.

(** Lines 226-241: runs of text parts are joined, [inlineData] parts kept. *)
Fixpoint consolidateParts (assembledParts : list (Part Json))
    (textBuffer : jsstring) : list (Part Json) :=
  match assembledParts with
  | [] => if nonempty textBuffer then [TextPart textBuffer] else []
  | TextPart t :: rest => consolidateParts rest (textBuffer ++ t)
  | InlineData mimeType data :: rest =>
      (if nonempty textBuffer then [TextPart textBuffer] else [])
        ++ InlineData mimeType data :: consolidateParts rest []
  | FunctionResponse _ _ :: rest => consolidateParts rest textBuffer
  end.

Definition is_empty_text (p : Part Json) : bool :=
  match p with
  | TextPart [] => true
  | _ => false
  end.

(** [processUserInput], lines 166-257. *)
Definition processUserInput (fuel : nat) (userInput : jsstring)
  : option (Message Json) :=
  match scanSegments fuel userInput with
  | None => None
  | Some segments =>
      if negb (existsb is_file_segment segments) then Some (TextMessage userInput)
      else
        let assembledParts := assembleParts segments in
        let finalConsolidatedParts := consolidateParts assembledParts [] in
        let processedParts :=
          filter (fun p => negb (is_empty_text p)) finalConsolidatedParts in
        match processedParts with
        | [] =>
            if nonempty userInput
            then Some (PartsMessage [TextPart userInput])
            else Some (TextMessage [])
        | _ :: _ => Some (PartsMessage processedParts)
        end
  end.

End Parser.

End UserInputParser.

(** ASCII lower-casing, which [toLowerCase] is on ASCII strings. *)
Definition asciiLower (s : jsstring) : jsstring :=
  map (fun c => if ((65 <=? c) && (c <=? 90))%N then (c + 32)%N else c) s.

(** A file system with one readable file. *)
Definition sampleFiles (filePath : jsstring) : Outcome jsstring :=
  if Js.eqb filePath `"notes/plan.MD" then Return `"IyBQbGFu"
  else Throw {| message := `"ENOENT: no such file or directory" |}.

Definition samplePrompt : jsstring :=
  `"Compare localfile(notes/plan.MD) with localfile(missing.txt) and localfile() please".


(** The input holds a directive: [localfile(] followed by a non-empty path
    free of [')'] and by [')']. *)
Definition holds_directive (userInput : jsstring) : Prop :=
  exists before filePath after,
    userInput = before ++ `"localfile(" ++ filePath ++ `")" ++ after
    /\ filePath <> [] /\ ~ In 41%N filePath.

(** The stretch of input a segment was cut from. *)
Definition segmentSource (s : UserInputParser.Segment) : jsstring :=
  match s with
  | UserInputParser.TextSegment content => content
  | UserInputParser.FileSegment _ originalMatch => originalMatch
  end.

(** A part list with no empty text part, no text part right after another,
    and nothing but text and [inlineData] parts. *)
Fixpoint joined (Json : Type) (parts : list (Part Json)) : Prop :=
  match parts with
  | [] => True
  | TextPart t :: rest =>
      t <> []
      /\ match rest with TextPart _ :: _ => False | _ => True end
      /\ joined rest
  | InlineData _ _ :: rest => joined rest
  | FunctionResponse _ _ :: _ => False
  end.

Definition inlineParts (Json : Type) (parts : list (Part Json)) : list (Part Json) :=
  filter (fun p => match p with InlineData _ _ => true | _ => false end) parts.

Definition allText (Json : Type) (parts : list (Part Json)) : jsstring :=
  flat_map (fun p => match p with TextPart t => t | _ => [] end) parts.

(** * Properties *)

(** ** Strings and dictionaries *)

Lemma Js_eqb_eq (a b : jsstring) : Js.eqb a b = true <-> a = b.
Proof.
  revert b; induction a as [|x a IH]; intros [|y b]; simpl;
    try (split; [discriminate | congruence]); try tauto.
  rewrite andb_true_iff, N.eqb_eq, IH.
  split; [intros [-> ->]; reflexivity | intros [= -> ->]; auto].
Qed.

Lemma Js_eqb_refl (a : jsstring) : Js.eqb a a = true.
Proof. apply Js_eqb_eq; reflexivity. Qed.

Lemma Js_eqb_neq (a b : jsstring) : Js.eqb a b = false <-> a <> b.
Proof.
  rewrite <- Js_eqb_eq. destruct (Js.eqb a b); split; congruence.
Qed.

Lemma keys_obj_set (V : Type) (d : dict V) (key : jsstring) (v : V) (k : jsstring) :
  In k (keys (obj_set d key v)) -> In k (keys d) \/ k = key.
Proof.
  unfold keys. induction d as [|[k0 x] d IH]; simpl.
  - intros [<-|[]]; auto.
  - destruct (Js.eqb k0 key); simpl; intuition.
Qed.

Section SchemaFacts.
Variable Json : Type.
Variable String_of : Json -> jsstring.

Let xlate := translateMcpSchemaToGeminiSchema String_of.

Lemma type_is_object_iff (ty : McpJsomSchemaType) :
  type_is_object ty = true <-> ty = TypeName `"object".
Proof.
  destruct ty as [|t|ts]; simpl; try (split; [discriminate | congruence]).
  rewrite Js_eqb_eq. split; congruence.
Qed.

Lemma type_is_not_object (ty : McpJsomSchemaType) :
  ty <> TypeName `"object" -> type_is_object ty = false.
Proof.
  intros H. destruct (type_is_object ty) eqn:E; [|reflexivity].
  apply type_is_object_iff in E. contradiction.
Qed.

(** The loop only ever writes under keys it enumerates. *)
Lemma forInProperties_keys
    (body : jsstring -> McpJsonSchema Json -> option Schema)
    (mcpProperties : list (jsstring * McpJsonSchema Json)) (k : jsstring) :
  In k (keys (forInProperties body mcpProperties)) -> In k (keys mcpProperties).
Proof.
  unfold forInProperties.
  assert (G : forall ps acc,
             In k (keys (fold_left
                           (fun geminiProperties kv =>
                              match body (fst kv) (snd kv) with
                              | Some geminiProp =>
                                  obj_set geminiProperties (fst kv) geminiProp
                              | None => geminiProperties
                              end) ps acc)) ->
             In k (keys acc) \/ In k (keys ps)).
  { induction ps as [|[key s] ps IH]; simpl; intros acc H; [auto|].
    apply IH in H. destruct H as [H|H]; [|auto].
    destruct (body key s); [|auto].
    apply keys_obj_set in H. destruct H as [H| ->]; auto. }
  intros H. apply G in H. destruct H as [[]|H]. exact H.
Qed.

Lemma translateMcpPropertiesToGeminiProperties_keys
    (mcpProperties : list (jsstring * McpJsonSchema Json)) :
  exists geminiProperties,
    translateMcpPropertiesToGeminiProperties String_of (Some mcpProperties)
      = Some geminiProperties
    /\ incl (keys geminiProperties) (keys mcpProperties).
Proof.
  eexists; split; [reflexivity|].
  intros k. apply forInProperties_keys.
Qed.

(** The top-level translation of an object-typed schema, written with the
    source's helper. *)
Lemma translate_object_schema d e props i r :
  xlate (SchemaObject (TypeName `"object") d e props i r)
  = Some (mkSchema OBJECT None None None
            (Some (match translateMcpPropertiesToGeminiProperties String_of props with
                   | Some p => p
                   | None => []
                   end))
            (Some (match r with Some l => l | None => [] end))).
Proof. reflexivity. Qed.

(** C1, as amended. A boolean schema gets no result ([undefined]); a schema
    object whose [type] is missing or is anything but the string ["object"]
    gets the empty object schema [{type: OBJECT, properties: {}, required: []}]. *)
Theorem translate_non_object_schema :
  (forall b : bool, xlate (BooleanSchema b) = None)
  /\ (forall ty d e p i r,
         ty <> TypeName `"object" ->
         xlate (SchemaObject ty d e p i r)
         = Some (mkSchema OBJECT None None None (Some []) (Some []))).
Proof.
  split; [reflexivity|].
  intros ty d e p i r H. unfold xlate; simpl.
  rewrite (type_is_not_object H). reflexivity.
Qed.

(** C7. For an object-typed schema the translation exists, and every key of
    its [properties] is a key of the input's [properties] (of none at all
    when the input has no [properties]). *)
Theorem translate_properties_keys_subset :
  forall d e (props : option (list (jsstring * McpJsonSchema Json))) i r,
  exists out geminiProperties,
    xlate (SchemaObject (TypeName `"object") d e props i r) = Some out
    /\ type out = OBJECT
    /\ properties out = Some geminiProperties
    /\ incl (keys geminiProperties)
         (keys (match props with Some ps => ps | None => [] end)).
Proof.
  intros d e props i r. rewrite translate_object_schema.
  do 2 eexists. repeat split.
  destruct props as [ps|]; simpl.
  - intros k. apply forInProperties_keys.
  - intros k [].
Qed.

(** C10, as amended. [required] is never filtered against the translated
    properties. At the top level it is copied as it is, [[]] standing in
    when it is missing. On a nested property of type OBJECT it is copied as
    it is when the property has a [properties] member (and stays unset when
    [required] is missing); without [properties] it is not copied. Some
    input therefore yields a [required] entry that names no property of the
    output. *)
Theorem required_copied_unfiltered :
  (forall d e props i r,
      exists geminiProperties,
        xlate (SchemaObject (TypeName `"object") d e props i r)
        = Some (mkSchema OBJECT None None None (Some geminiProperties)
                  (Some (match r with Some l => l | None => [] end))))
  /\ (forall key ty d e nested i r,
         mcpSchemaTypeToGeminiSchemaType ty = Some OBJECT ->
         exists out,
           translateProperty String_of key (SchemaObject ty d e (Some nested) i r)
           = Some out
           /\ required out = r)
  /\ (forall key ty d e i r,
         mcpSchemaTypeToGeminiSchemaType ty = Some OBJECT ->
         exists out,
           translateProperty String_of key (SchemaObject ty d e None i r)
           = Some out
           /\ required out = None)
  /\ (exists mcpSchema out geminiProperties req missing,
         xlate mcpSchema = Some out
         /\ properties out = Some geminiProperties
         /\ required out = Some req
         /\ In missing req
         /\ ~ In missing (keys geminiProperties)).
Proof.
  repeat split.
  - intros d e props i r. rewrite translate_object_schema. eexists; reflexivity.
  - intros key ty d e nested i r H. simpl. rewrite H. simpl.
    eexists; split; [reflexivity|]. destruct r; reflexivity.
  - intros key ty d e i r H. simpl. rewrite H. simpl.
    eexists; split; reflexivity.
  - exists (SchemaObject (TypeName `"object") None None
              (Some [(`"anything", BooleanSchema true)]) None
              (Some [`"anything"])).
    do 2 eexists. exists [`"anything"], `"anything".
    repeat split; [left; reflexivity | intros []].
Qed.

End SchemaFacts.

(** C1, the claim as written fails on a boolean schema: no schema comes back,
    so in particular not the empty object schema. *)
Lemma translate_boolean_schema_is_undefined :
  translate (BooleanSchema true) = None
  /\ translate (BooleanSchema true)
     <> Some (mkSchema OBJECT None None None (Some []) (Some [])).
Proof. split; [reflexivity | discriminate]. Qed.

Lemma translate_non_object_schema_witness :
  TypeName `"string" <> TypeName `"object"
  /\ translate citySchema
     = Some (mkSchema OBJECT None None None (Some []) (Some [])).
Proof.
  assert (H : TypeName `"string" <> TypeName `"object") by discriminate.
  split; [exact H|].
  exact (proj2 (translate_non_object_schema JsonLit_String)
           (TypeName `"string") (Some `"City") None None None None H).
Defined.

(** C10, the claim as written fails on nested object-typed properties. One
    that has [required] but no [properties] loses the list: [["lat"]] is not
    carried over. One that has [properties] but no [required] gets no
    [required] member, not an empty one. *)
Lemma nested_required_not_copied :
  (exists whereSchema,
      translate placeSchema
      = Some (mkSchema OBJECT None None None
                (Some [(`"where", whereSchema)]) (Some []))
      /\ type whereSchema = OBJECT
      /\ required whereSchema = None
      /\ required whereSchema <> Some [`"lat"])
  /\ (exists whereSchema,
         translateProperty JsonLit_String `"where"
           (SchemaObject (TypeName `"object") None None (Some []) None None)
         = Some whereSchema
         /\ type whereSchema = OBJECT
         /\ properties whereSchema = Some []
         /\ required whereSchema <> Some []).
Proof.
  split.
  - eexists. split; [vm_compute; reflexivity|].
    repeat split. discriminate.
  - eexists. split; [vm_compute; reflexivity|].
    repeat split. discriminate.
Qed.

Lemma required_copied_unfiltered_witness :
  mcpSchemaTypeToGeminiSchemaType (TypeList [None; Some `"object"]) = Some OBJECT
  /\ (exists out,
         translateProperty JsonLit_String `"where"
           (SchemaObject (TypeList [None; Some `"object"]) None None
              (Some [(`"lat", BooleanSchema false)]) None (Some [`"lat"]))
         = Some out
         /\ required out = Some [`"lat"])
  /\ (exists out,
         translateProperty JsonLit_String `"where"
           (SchemaObject (TypeList [None; Some `"object"]) None None
              None None (Some [`"lat"]))
         = Some out
         /\ required out = None).
Proof.
  assert (H : mcpSchemaTypeToGeminiSchemaType (TypeList [None; Some `"object"])
              = Some OBJECT) by reflexivity.
  split; [exact H|]. split.
  - exact (proj1 (proj2 (required_copied_unfiltered JsonLit_String))
             `"where" (TypeList [None; Some `"object"]) None None
             [(`"lat", BooleanSchema false)] None (Some [`"lat"]) H).
  - exact (proj1 (proj2 (proj2 (required_copied_unfiltered JsonLit_String)))
             `"where" (TypeList [None; Some `"object"]) None None
             None (Some [`"lat"]) H).
Defined.

(** ** Function names *)

Lemma is_identifier_unit_spec (c : N) :
  is_identifier_unit c = true <-> identifier_unit c.
Proof.
  unfold is_identifier_unit, identifier_unit.
  rewrite !orb_true_iff, !andb_true_iff, !N.leb_le, N.eqb_eq. tauto.
Qed.

Lemma sanitize_identifier (s : jsstring) : Forall identifier_unit (sanitize s).
Proof.
  unfold sanitize. induction s as [|c s IH]; simpl; constructor; auto.
  destruct (is_identifier_unit c) eqn:E.
  - apply is_identifier_unit_spec; exact E.
  - unfold identifier_unit; auto.
Qed.

Lemma sanitize_pointwise (s : jsstring) :
  Forall2 (fun c c' => (identifier_unit c /\ c' = c)
                       \/ (~ identifier_unit c /\ c' = 95%N))
    s (sanitize s).
Proof.
  unfold sanitize. induction s as [|c s IH]; simpl; constructor; auto.
  destruct (is_identifier_unit c) eqn:E.
  - left. split; [apply is_identifier_unit_spec; exact E | reflexivity].
  - right. split; [|reflexivity].
    intros H. apply is_identifier_unit_spec in H. congruence.
Qed.

Lemma Forall_firstn (A : Type) (P : A -> Prop) (n : nat) (l : list A) :
  Forall P l -> Forall P (firstn n l).
Proof.
  revert l; induction n as [|n IH]; intros [|a l] H; simpl; auto.
  inversion H; subst. constructor; auto.
Qed.

(** C5. The derived name is a function of the two names alone: each is
    sanitized code unit by code unit (a unit of [[A-Za-z0-9_]] is kept, any
    other becomes ['_']), the two are joined by ['_'], and the first 63 code
    units are kept. The result has at most 63 code units and matches
    [[A-Za-z0-9_]+]. *)
Theorem function_name_is_bounded_identifier :
  forall mcpServerName toolName : jsstring,
    geminiFunctionNameFor mcpServerName toolName
    = firstn 63 (sanitize mcpServerName ++ `"_" ++ sanitize toolName)
    /\ Forall2 (fun c c' => (identifier_unit c /\ c' = c)
                            \/ (~ identifier_unit c /\ c' = 95%N))
         (mcpServerName ++ `"_" ++ toolName)
         (sanitize mcpServerName ++ `"_" ++ sanitize toolName)
    /\ length (geminiFunctionNameFor mcpServerName toolName) <= 63
    /\ matches_identifier (geminiFunctionNameFor mcpServerName toolName).
Proof.
  intros server tool.
  assert (E : geminiFunctionNameFor server tool
              = firstn 63 (sanitize server ++ `"_" ++ sanitize tool)).
  { unfold geminiFunctionNameFor, maxFunctionNameLength.
    destruct (63 <? length (sanitize server ++ `"_" ++ sanitize tool)) eqn:L;
      [reflexivity|].
    apply Nat.ltb_ge in L. symmetry. apply firstn_all2. exact L. }
  split; [exact E|]. split; [|split].
  - apply Forall2_app; [apply sanitize_pointwise|].
    constructor; [|apply sanitize_pointwise].
    left. split; [|reflexivity]. unfold identifier_unit. right; right; right.
    reflexivity.
  - rewrite E. apply firstn_le_length.
  - rewrite E. split.
    + destruct (sanitize server); discriminate.
    + apply Forall_firstn. apply Forall_app. split; [apply sanitize_identifier|].
      constructor; [|apply sanitize_identifier].
      unfold identifier_unit. right; right; right. reflexivity.
Qed.

(** The derivation on two inputs: a short pair, and a tool name long enough
    to be cut at 63 code units. *)
Example function_name_short :
  geminiFunctionNameFor `"my server" `"get-weather" = `"my_server_get_weather".
Proof. reflexivity. Qed.

Example function_name_truncated :
  geminiFunctionNameFor `"srv"
    `"a.very.long.tool.name.that.goes.on.and.on.and.on.and.on.until.it.is.cut"
  = `"srv_a_very_long_tool_name_that_goes_on_and_on_and_on_and_on_unt".
Proof. reflexivity. Qed.

Section RegistryFacts.
Variable Json : Type.
Variable String_of : Json -> jsstring.

Lemma mcpToolToGeminiFunction_name mcpTool mcpServerName geminiFuncDecl :
  mcpToolToGeminiFunction String_of mcpTool mcpServerName = Some geminiFuncDecl ->
  name geminiFuncDecl = geminiFunctionNameFor mcpServerName (tool_name mcpTool).
Proof.
  unfold mcpToolToGeminiFunction.
  destruct (inputSchema mcpTool) as [[b|ty d e p i r]|]; try discriminate.
  destruct (negb (type_is_object ty)); try discriminate.
  destruct (translateMcpSchemaToGeminiSchema String_of _); try discriminate.
  intros [= <-]. reflexivity.
Qed.

(** What the inner loop appends: one mapping per tool that translates, in
    listing order. *)
Lemma mapMcpTools_spec (mcpTools : list (McpToolSchema Json)) serverConfig table :
  mapMcpTools String_of mcpTools serverConfig table
  = table
      ++ flat_map
           (fun mcpTool =>
              match mcpToolToGeminiFunction String_of mcpTool
                      (server_name serverConfig) with
              | Some geminiFuncDecl =>
                  [mappingOf serverConfig mcpTool geminiFuncDecl]
              | None => []
              end) mcpTools.
Proof.
  revert table; induction mcpTools as [|t ts IH]; intros table; simpl.
  - rewrite app_nil_r; reflexivity.
  - destruct (mcpToolToGeminiFunction String_of t (server_name serverConfig));
      rewrite IH; [rewrite <- app_assoc|]; reflexivity.
Qed.

Lemma mcpToolToGeminiFunction_rejects mcpTool mcpServerName :
  inputSchema_not_object (inputSchema mcpTool) ->
  mcpToolToGeminiFunction String_of mcpTool mcpServerName = None.
Proof.
  unfold mcpToolToGeminiFunction, inputSchema_not_object.
  destruct (inputSchema mcpTool) as [[b|ty d e p i r]|]; try reflexivity.
  intros H. rewrite (type_is_not_object H). reflexivity.
Qed.

(** C3. A tool whose [inputSchema] is absent, boolean, or not of type
    ["object"] gets no function declaration, and wherever it stands in a
    server's listing the table comes out as if it had not been listed. *)
Theorem registry_skips_non_object_tools :
  forall (mcpTool : McpToolSchema Json) (serverConfig : McpServerConfig),
    inputSchema_not_object (inputSchema mcpTool) ->
    mcpToolToGeminiFunction String_of mcpTool (server_name serverConfig) = None
    /\ forall listedBefore listedAfter currentSessionTools,
        mapMcpTools String_of (listedBefore ++ mcpTool :: listedAfter)
          serverConfig currentSessionTools
        = mapMcpTools String_of (listedBefore ++ listedAfter)
            serverConfig currentSessionTools.
Proof.
  intros t srv H.
  pose proof (mcpToolToGeminiFunction_rejects t (server_name srv) H) as R.
  split; [exact R|].
  intros before after table.
  rewrite !mapMcpTools_spec, !flat_map_app. simpl. rewrite R. reflexivity.
Qed.

End RegistryFacts.

Lemma registry_skips_non_object_tools_witness :
  inputSchema_not_object (inputSchema echoTool)
  /\ mcpToolToGeminiFunction JsonLit_String echoTool (server_name myServer) = None
  /\ mapMcpTools JsonLit_String ([pingTool] ++ echoTool :: [forecastTool]) myServer []
     = mapMcpTools JsonLit_String ([pingTool] ++ [forecastTool]) myServer [].
Proof.
  assert (H : inputSchema_not_object (inputSchema echoTool)) by exact I.
  split; [exact H|].
  destruct (registry_skips_non_object_tools JsonLit_String echoTool myServer H)
    as [R1 R2].
  split; [exact R1 | exact (R2 [pingTool] [forecastTool] [])].
Defined.

(** ** The remote tool client *)

Section ClientFacts.
Variable Json : Type.
Variable World : Type.
Variable env : Environment Json World.

Lemma new_GenericMcpClient_fresh serverUrlString this :
  new_GenericMcpClient env serverUrlString = Return this ->
  this = {| serverUrl := serverUrlString; connected := false |}
  /\ URL_new env serverUrlString = Return tt.
Proof.
  unfold new_GenericMcpClient.
  destruct (URL_new env serverUrlString) as [[]|e]; [|discriminate].
  intros [= <-]. auto.
Qed.

Lemma connect_sets_flag this w o this' w' :
  connect env this w = (o, this', w') ->
  serverUrl this' = serverUrl this
  /\ connected this' = match o with Return _ => true | Throw _ => false end.
Proof.
  unfold connect. destruct (connected this) eqn:C.
  - intros [= <- <- <-]. auto.
  - destruct (Client_connect env (serverUrl this) w) as [[[]|e] w1];
      intros [= <- <- <-]; auto.
Qed.

Lemma disconnect_clears_flag this w :
  exists w', disconnect env this w = (Return tt, set_connected false this, w').
Proof.
  unfold disconnect. destruct (connected this) eqn:C; simpl.
  - destruct (Client_close env (serverUrl this) w) as [o w1]. eauto.
  - exists w. destruct this as [u c]; simpl in *; subst; reflexivity.
Qed.

Lemma callMcpTool_not_connected this mcpToolName mcpArguments w :
  connected this = false ->
  callMcpTool env this mcpToolName mcpArguments w = (Throw notConnectedError, w).
Proof. intros C. unfold callMcpTool. rewrite C. reflexivity. Qed.

(** C2. Without a successful [connect] (a new client, or one whose
    [connect] raised) [callMcpTool] raises and sends nothing. After a
    successful [connect] it never raises: when the request itself fails it
    returns [{toolCallId: "error-"+now, isError: true, content: [text]}]. *)
Theorem callMcpTool_error_channels :
  (forall this mcpToolName mcpArguments w,
      connected this = false ->
      callMcpTool env this mcpToolName mcpArguments w
      = (Throw notConnectedError, w))
  /\ (forall serverUrlString this,
         new_GenericMcpClient env serverUrlString = Return this ->
         connected this = false)
  /\ (forall this w0 e this' w,
         connect env this w0 = (Throw e, this', w) -> connected this' = false)
  /\ (forall this w0 this' w mcpToolName mcpArguments,
         connect env this w0 = (Return tt, this', w) ->
         (forall error w',
             Client_callTool env (serverUrl this') mcpToolName mcpArguments w
             = (Throw error, w') ->
             callMcpTool env this' mcpToolName mcpArguments w
             = (Return
                  {| toolCallId := Some (`"error-" ++ Js.of_N (Date_now env w'));
                     isError := Some true;
                     content :=
                       [TextContent
                          (`"Error calling MCP tool " ++ mcpToolName ++ `": "
                             ++ message error)] |},
                w'))
         /\ exists result w',
             callMcpTool env this' mcpToolName mcpArguments w
             = (Return result, w')).
Proof.
  split; [exact callMcpTool_not_connected|]. split; [|split].
  - intros u this H. apply new_GenericMcpClient_fresh in H.
    destruct H as [-> _]. reflexivity.
  - intros this w0 e this' w H. apply connect_sets_flag in H. tauto.
  - intros this w0 this' w toolName arguments H.
    apply connect_sets_flag in H. destruct H as [_ C].
    unfold callMcpTool. rewrite C. simpl. split.
    + intros error w' E. rewrite E. reflexivity.
    + destruct (Client_callTool env (serverUrl this') toolName arguments w)
        as [[r|error] w']; eauto.
Qed.

(** C8. [listMcpTools] gives [null] exactly when it could not list: at
    once and with the world untouched when the client is not connected, and
    when the listing request fails. A connected server that reports no
    tools gives the empty list. *)
Theorem listMcpTools_null_iff_could_not_list :
  forall this w,
    (connected this = false -> listMcpTools env this w = (None, w))
    /\ (connected this = true ->
        forall e w',
          Client_listTools env (serverUrl this) w = (Throw e, w') ->
          listMcpTools env this w = (None, w'))
    /\ (connected this = true ->
        forall response w',
          Client_listTools env (serverUrl this) w = (Return response, w') ->
          tools response = Some [] ->
          listMcpTools env this w = (Some [], w'))
    /\ (fst (listMcpTools env this w) = None
        <-> connected this = false
            \/ exists e w',
                Client_listTools env (serverUrl this) w = (Throw e, w')).
Proof.
  intros this w. unfold listMcpTools.
  destruct (connected this) eqn:C; simpl.
  - split; [discriminate|]. split; [|split].
    + intros _ e w' E. rewrite E. reflexivity.
    + intros _ response w' E T. rewrite E, T. reflexivity.
    + destruct (Client_listTools env (serverUrl this) w) as [[r|e] w']; simpl.
      * split; [discriminate|]. intros [H|(e & w1 & H)]; discriminate.
      * split; [|reflexivity]. intros _. right. eauto.
  - split; [reflexivity|]. split; [discriminate|]. split; [discriminate|].
    split; auto.
Qed.

End ClientFacts.

Lemma callMcpTool_error_channels_witness :
  connected freshClient = false
  /\ callMcpTool sampleEnv freshClient `"forecast" (JsonString `"Oslo") []
     = (Throw notConnectedError, [])
  /\ connect sampleEnv freshClient []
     = (Return tt, connectedClient, [ReqConnect `"http://localhost:8080/mcp"])
  /\ callMcpTool sampleEnv connectedClient `"boom" JsonNull
       [ReqConnect `"http://localhost:8080/mcp"]
     = (Return
          {| toolCallId := Some `"error-1700000000002";
             isError := Some true;
             content := [TextContent `"Error calling MCP tool boom: Unknown tool"] |},
        [ReqConnect `"http://localhost:8080/mcp";
         ReqCallTool `"http://localhost:8080/mcp" `"boom"]).
Proof.
  assert (C : connected freshClient = false) by reflexivity.
  assert (K : connect sampleEnv freshClient []
              = (Return tt, connectedClient,
                 [ReqConnect `"http://localhost:8080/mcp"])) by reflexivity.
  destruct (callMcpTool_error_channels sampleEnv) as (T1 & _ & _ & T4).
  split; [exact C|]. split; [|split; [exact K|]].
  - exact (T1 freshClient `"forecast" (JsonString `"Oslo") [] C).
  - exact (proj1 (T4 freshClient [] connectedClient
                    [ReqConnect `"http://localhost:8080/mcp"]
                    `"boom" JsonNull K)
             {| message := `"Unknown tool" |}
             [ReqConnect `"http://localhost:8080/mcp";
              ReqCallTool `"http://localhost:8080/mcp" `"boom"]
             eq_refl).
Defined.

Lemma listMcpTools_null_iff_could_not_list_witness :
  connected freshClient = false
  /\ listMcpTools sampleEnv freshClient [] = (None, [])
  /\ listMcpTools sampleEnv
       {| serverUrl := `"http://empty.example/mcp"; connected := true |} []
     = (Some [], [ReqListTools `"http://empty.example/mcp"])
  /\ listMcpTools sampleEnv
       {| serverUrl := `"http://flaky.example/mcp"; connected := true |} []
     = (None, [ReqListTools `"http://flaky.example/mcp"]).
Proof.
  split; [reflexivity|]. split; [|split].
  - exact (proj1 (listMcpTools_null_iff_could_not_list sampleEnv freshClient [])
             eq_refl).
  - exact (proj1 (proj2 (proj2
             (listMcpTools_null_iff_could_not_list sampleEnv
                {| serverUrl := `"http://empty.example/mcp"; connected := true |}
                [])))
             eq_refl {| tools := Some [] |}
             [ReqListTools `"http://empty.example/mcp"] eq_refl eq_refl).
  - exact (proj1 (proj2
             (listMcpTools_null_iff_could_not_list sampleEnv
                {| serverUrl := `"http://flaky.example/mcp"; connected := true |}
                []))
             eq_refl {| message := `"Request timed out" |}
             [ReqListTools `"http://flaky.example/mcp"] eq_refl).
Defined.

(** ** Discovery *)

Section DiscoveryFacts.
Variable Json : Type.
Variable String_of : Json -> jsstring.
Variable World : Type.
Variable env : Environment Json World.

Let built := built_from String_of env.

Local Arguments mapMcpTools : simpl never.

(** One server's [try] block only appends, and what it appends does not
    depend on the table it appends to. *)
Lemma discoverOnServer_appends serverConfig w :
  URL_new env (server_url serverConfig) = Return tt ->
  exists added mcpClient' w',
    (forall table,
        discoverOnServer String_of env serverConfig
          {| serverUrl := server_url serverConfig; connected := false |}
          table w
        = (table ++ added, mcpClient', w'))
    /\ (forall servers, In serverConfig servers -> Forall (built servers) added)
    /\ (server_fails env serverConfig -> added = []).
Proof.
  intros U. unfold discoverOnServer, connect, listMcpTools, isConnected. simpl.
  destruct (Client_connect env (server_url serverConfig) w) as [[[]|e] w1] eqn:EC;
    simpl.
  - destruct (Client_listTools env (server_url serverConfig) w1)
      as [[response|e] w2] eqn:EL.
    + destruct (tools response) as [[|t ts]|] eqn:ET.
      * do 3 eexists. split; [intros; rewrite app_nil_r; reflexivity|]. auto.
      * do 3 eexists.
        split; [intros; rewrite mapMcpTools_spec; reflexivity|]. split.
        -- intros servers S. apply Forall_forall. intros m M.
           apply in_flat_map in M. destruct M as (tool & T & M).
           destruct (mcpToolToGeminiFunction String_of tool
                       (server_name serverConfig)) as [decl|] eqn:D;
             [|destruct M].
           destruct M as [<-|[]].
           exists serverConfig, tool, decl, w1, w2, response, (t :: ts). auto 10.
        -- intros [F|F].
           ++ destruct (F w) as (e & w' & F'). congruence.
           ++ destruct (F w1) as (e & w' & F'). congruence.
      * do 3 eexists. split; [intros; rewrite app_nil_r; reflexivity|]. auto.
    + do 3 eexists. split; [intros; rewrite app_nil_r; reflexivity|]. auto.
  - do 3 eexists. split; [intros; rewrite app_nil_r; reflexivity|]. auto.
Qed.

(** The same for the whole loop over the configured servers. *)
Lemma discoverServers_appends configuredServers :
  forall w, exists o added w',
    (forall table,
        discoverServers String_of env configuredServers table w
        = (o, table ++ added, w'))
    /\ (forall servers, incl configuredServers servers ->
                        Forall (built servers) added)
    /\ (Forall (server_fails env) configuredServers -> added = []).
Proof.
  induction configuredServers as [|serverConfig rest IH]; intros w.
  - exists (Return tt), [], w. split; [intros; rewrite app_nil_r; reflexivity|].
    auto.
  - simpl. destruct (new_GenericMcpClient env (server_url serverConfig))
      as [mcpClient|e] eqn:N.
    + apply new_GenericMcpClient_fresh in N. destruct N as [-> U].
      destruct (discoverOnServer_appends serverConfig w U)
        as (added1 & mcpClient' & w1 & E1 & B1 & F1).
      destruct (IH (if isConnected mcpClient'
                    then snd (disconnect env mcpClient' w1) else w1))
        as (o & added2 & w' & E2 & B2 & F2).
      exists o, (added1 ++ added2), w'. split; [|split].
      * intros table. rewrite E1, E2, app_assoc. reflexivity.
      * intros servers I. apply Forall_app. split.
        -- apply B1. apply I. left; reflexivity.
        -- apply B2. intros x X. apply I. right; exact X.
      * intros F. inversion F; subst. rewrite F1, F2; auto.
    + exists (Throw e), [], w.
      split; [intros; rewrite app_nil_r; reflexivity|]. auto.
Qed.

(** C9. A discovery pass starts from an empty table: its result is the
    same whatever the table held before, every mapping in it was built in
    this pass from a tool that one of the given servers listed, and it is
    exactly what the loop over the servers appends to any table it is
    started on. With no server, or with every server failing, the table is
    left empty. *)
Theorem discovery_replaces_table :
  forall configuredServers previous w,
    (forall other,
        discoverAndMapAllMcpTools String_of env configuredServers previous w
        = discoverAndMapAllMcpTools String_of env configuredServers other w)
    /\ (exists o table w',
           discoverAndMapAllMcpTools String_of env configuredServers previous w
           = (o, table, w')
           /\ Forall (built configuredServers) table
           /\ (forall start,
                  discoverServers String_of env configuredServers start w
                  = (o, start ++ table, w'))
           /\ (Forall (server_fails env) configuredServers -> table = []))
    /\ discoverAndMapAllMcpTools String_of env [] previous w = (Return tt, [], w).
Proof.
  intros servers previous w. split; [reflexivity|]. split; [|reflexivity].
  destruct (discoverServers_appends servers w) as (o & added & w' & E & B & F).
  exists o, added, w'. unfold discoverAndMapAllMcpTools. rewrite E. simpl.
  split; [reflexivity|]. split; [apply B, incl_refl|]. split; assumption.
Qed.

(** Every table a session can hold names only servers whose URL parses. *)
Lemma table_reachable_urls table :
  table_reachable String_of env table ->
  Forall (fun m => URL_new env (mcpServerUrl m) = Return tt) table.
Proof.
  intros R. destruct R as [|servers previous w o table w' _ D]; [constructor|].
  destruct (discoverServers_appends servers w) as (o1 & added & w1 & E & B & _).
  unfold discoverAndMapAllMcpTools in D. rewrite E in D.
  injection D as <- <- <-. simpl.
  apply Forall_forall. intros m M.
  specialize (B servers (incl_refl _)). rewrite Forall_forall in B.
  destruct (B m M)
    as (srv & tool & decl & wa & wb & response & listed
        & _ & U & _ & _ & _ & _ & ->).
  exact U.
Qed.

End DiscoveryFacts.

Lemma discovery_replaces_table_witness :
  Forall (server_fails sampleEnv) [downServer; flakyServer]
  /\ sampleTable <> []
  /\ discoverAndMapAllMcpTools JsonLit_String sampleEnv
       [downServer; flakyServer] sampleTable []
     = (Return tt, [],
        [ReqConnect `"http://down.example/mcp";
         ReqConnect `"http://flaky.example/mcp";
         ReqListTools `"http://flaky.example/mcp";
         ReqClose `"http://flaky.example/mcp"]).
Proof.
  assert (F : Forall (server_fails sampleEnv) [downServer; flakyServer]).
  { apply Forall_cons; [|apply Forall_cons; [|apply Forall_nil]].
    - left. intros w. do 2 eexists. reflexivity.
    - right. intros w. do 2 eexists. reflexivity. }
  split; [exact F|]. split; [discriminate|].
  destruct (discovery_replaces_table JsonLit_String sampleEnv
              [downServer; flakyServer] sampleTable [])
    as (_ & (o & table & w' & D & _ & _ & E) & _).
  rewrite D. rewrite (E F) in D |- *.
  vm_compute in D. injection D as <- <-. reflexivity.
Defined.

(** ** The tool-calling loop *)

Section DispatchFacts.
Variable Json : Type.
Variable String_of : Json -> jsstring.
Variable World : Type.
Variable env : Environment Json World.

Lemma findDynamicallyMappedTool_none tools geminiFunctionName :
  (forall m, In m tools ->
             name (geminiFunctionDeclaration m) <> geminiFunctionName) ->
  findDynamicallyMappedTool tools geminiFunctionName = None.
Proof.
  intros H. unfold findDynamicallyMappedTool.
  induction tools as [|m tools IH]; simpl; [reflexivity|].
  destruct (Js.eqb (name (geminiFunctionDeclaration m)) geminiFunctionName) eqn:E.
  - apply Js_eqb_eq in E. destruct (H m); [left; reflexivity | exact E].
  - apply IH. intros m' M. apply H. right; exact M.
Qed.

(** C6. A requested call whose name no mapping carries does not raise and
    reaches no server: the loop appends
    [{functionResponse: {name, response: {error: ...}}}] for it and goes on
    with the remaining calls of the round. A round made only of such calls
    returns one such entry per call, in request order. *)
Theorem unmapped_call_gets_error_response :
  forall (tools : Table) (call : FunctionCall Json),
    (forall m, In m tools ->
               name (geminiFunctionDeclaration m) <> call_name call) ->
    (forall rest toolResponses w,
        executeFunctionCalls env tools (call :: rest) toolResponses w
        = executeFunctionCalls env tools rest
            (toolResponses
               ++ [FunctionResponse (call_name call)
                     (ErrorBody
                        (`"Function " ++ call_name call
                           ++ `" is not implemented or mapped."))])
            w)
    /\ (forall toolResponses w,
           executeFunctionCalls env tools [call] toolResponses w
           = (Return
                (toolResponses
                   ++ [FunctionResponse (call_name call)
                         (ErrorBody
                            (`"Function " ++ call_name call
                               ++ `" is not implemented or mapped."))]),
              w)).
Proof.
  intros tools call H.
  pose proof (@findDynamicallyMappedTool_none tools (call_name call) H) as F.
  split; intros; simpl; rewrite F; reflexivity.
Qed.

Lemma executeFunctionCalls_unmapped_round tools (calls : list (FunctionCall Json)) :
  (forall call m, In call calls -> In m tools ->
                  name (geminiFunctionDeclaration m) <> call_name call) ->
  forall toolResponses w,
    executeFunctionCalls env tools calls toolResponses w
    = (Return (toolResponses ++ map (@notMappedResponse Json) calls), w).
Proof.
  induction calls as [|call rest IH]; intros H acc w; simpl.
  - rewrite app_nil_r; reflexivity.
  - rewrite findDynamicallyMappedTool_none
      by (intros m M; apply (H call m); [left; reflexivity | exact M]).
    rewrite IH by (intros c m C M; apply H; [right; exact C | exact M]).
    rewrite <- app_assoc. reflexivity.
Qed.

(** With a table whose URLs parse, a round of calls never raises. *)
Lemma executeFunctionCalls_returns tools :
  Forall (fun m => URL_new env (mcpServerUrl m) = Return tt) tools ->
  forall (calls : list (FunctionCall Json)) toolResponses w,
  exists parts w',
    executeFunctionCalls env tools calls toolResponses w = (Return parts, w').
Proof.
  intros U. induction calls as [|call rest IH]; intros acc w; simpl; [eauto|].
  destruct (findDynamicallyMappedTool tools (call_name call))
    as [mappedTool|] eqn:F; [|apply IH].
  apply find_some in F. destruct F as [M _].
  rewrite Forall_forall in U. unfold new_GenericMcpClient. rewrite (U _ M).
  destruct (executeMappedCall env call mappedTool _ w) as [[part mcpClient] w1].
  apply IH.
Qed.

(** The loop condition is tested at most [maxAttempts + 1] times, whatever
    the model and the servers answer. *)
Lemma toolCallingLoop_total tools :
  forall fuel attempt msg w,
    maxAttempts - attempt < fuel ->
    exists result, toolCallingLoop env fuel tools attempt msg w = Some result.
Proof.
  induction fuel as [|fuel IH]; intros attempt msg w L; [lia|].
  cbn [toolCallingLoop].
  destruct (attempt <? maxAttempts) eqn:A; [|eauto].
  apply Nat.ltb_lt in A.
  destruct (ChatSession_sendMessage env msg w) as [[[response|]|e] w1]; eauto.
  destruct (functionCalls response) as [[|c cs]|].
  - destruct (text response); eauto.
  - destruct (executeFunctionCalls env tools (c :: cs) [] w1)
      as [[parts|e] w2]; eauto.
    apply IH. lia.
  - destruct (text response); eauto.
Qed.

Lemma toolCallingLoop_exhausts tools :
  Forall (fun m => URL_new env (mcpServerUrl m) = Return tt) tools ->
  always_requests_calls env ->
  forall remaining attempt msg w,
    attempt + remaining = maxAttempts ->
    exists w',
      (forall fuel, remaining < fuel ->
                    toolCallingLoop env fuel tools attempt msg w
                    = Some (Return exhaustedMessage, w'))
      /\ (forall fuel, fuel <= remaining ->
                       toolCallingLoop env fuel tools attempt msg w = None).
Proof.
  intros U M. induction remaining as [|remaining IH]; intros attempt msg w E.
  - exists w. split; intros [|fuel] L; try lia; try reflexivity.
    simpl. replace (attempt <? maxAttempts) with false; [reflexivity|].
    symmetry. apply Nat.ltb_ge. lia.
  - destruct (M msg w) as (response & c & cs & w1 & S1 & C1).
    destruct (executeFunctionCalls_returns U (c :: cs) [] w1)
      as (parts & w2 & X).
    destruct (IH (attempt + 1) (PartsMessage parts) w2) as (w' & Hsome & Hnone);
      [lia|].
    assert (A : (attempt <? maxAttempts) = true) by (apply Nat.ltb_lt; lia).
    exists w'. split; intros [|fuel] L; try lia; try reflexivity.
    + cbn [toolCallingLoop]. rewrite A, S1, C1, X. apply Hsome. lia.
    + cbn [toolCallingLoop]. rewrite A, S1, C1, X. apply Hnone. lia.
Qed.

(** C4. On any table a session can hold the loop always ends: testing
    its condition [maxAttempts + 1] times is enough, whatever the model
    answers. Against a model that asks for function calls on every turn it
    does not raise, runs all [maxAttempts] rounds (no smaller bound lets it
    finish), and returns the exhausted-rounds message. *)
Theorem dispatch_loop_bounded :
  forall tools,
    table_reachable String_of env tools ->
    (forall msg w, exists result,
        toolCallingLoop env (S maxAttempts) tools 0 msg w = Some result)
    /\ (always_requests_calls env ->
        forall msg w, exists w',
          (forall fuel, maxAttempts < fuel ->
                        toolCallingLoop env fuel tools 0 msg w
                        = Some (Return exhaustedMessage, w'))
          /\ (forall fuel, fuel <= maxAttempts ->
                           toolCallingLoop env fuel tools 0 msg w = None)
          /\ (forall userInput w0,
                 processUserInput env userInput w0 = (Return msg, w) ->
                 sendMessageToGemini env (S maxAttempts) tools userInput w0
                 = Some (Return exhaustedMessage, w'))).
Proof.
  intros tools R. split.
  - intros msg w. apply toolCallingLoop_total. lia.
  - intros M msg w.
    destruct (toolCallingLoop_exhausts (table_reachable_urls R) M
                maxAttempts 0 msg w eq_refl) as (w' & Hsome & Hnone).
    exists w'. split; [exact Hsome|]. split; [exact Hnone|].
    intros userInput w0 P. unfold sendMessageToGemini. rewrite P.
    apply Hsome. lia.
Qed.

End DispatchFacts.

Lemma unmapped_call_gets_error_response_witness :
  (forall m, In m sampleTable ->
             name (geminiFunctionDeclaration m) <> `"nope")
  /\ executeFunctionCalls sampleEnv sampleTable
       [ {| call_name := `"nope"; args := JsonNull |};
         {| call_name := `"my_server_forecast"; args := JsonString `"Oslo" |} ]
       [] []
     = (Return
          [FunctionResponse `"nope"
             (ErrorBody `"Function nope is not implemented or mapped.");
           FunctionResponse `"my_server_forecast" (ToolResult sunny)],
        [ReqConnect `"http://localhost:8080/mcp";
         ReqCallTool `"http://localhost:8080/mcp" `"forecast";
         ReqClose `"http://localhost:8080/mcp"]).
Proof.
  assert (H : forall m, In m sampleTable ->
                        name (geminiFunctionDeclaration m) <> `"nope").
  { intros m [<-|[]]. discriminate. }
  split; [exact H|].
  rewrite (proj1 (unmapped_call_gets_error_response sampleEnv sampleTable
                    {| call_name := `"nope"; args := JsonNull |} H)).
  reflexivity.
Defined.

Lemma sampleTable_reachable : table_reachable JsonLit_String sampleEnv sampleTable.
Proof.
  apply (@reachable_discovered _ JsonLit_String _ sampleEnv
           [downServer; myServer] [] [] (Return tt) sampleTable
           [ReqConnect `"http://down.example/mcp";
            ReqConnect `"http://localhost:8080/mcp";
            ReqListTools `"http://localhost:8080/mcp";
            ReqClose `"http://localhost:8080/mcp"]).
  - constructor.
  - reflexivity.
Defined.

Lemma sampleEnv_always_requests_calls : always_requests_calls sampleEnv.
Proof. intros msg w. do 4 eexists. split; reflexivity. Defined.

Lemma dispatch_loop_bounded_witness :
  table_reachable JsonLit_String sampleEnv sampleTable
  /\ always_requests_calls sampleEnv
  /\ exists w',
      toolCallingLoop sampleEnv 6 sampleTable 0 (TextMessage `"hi") []
      = Some (Return exhaustedMessage, w')
      /\ toolCallingLoop sampleEnv 5 sampleTable 0 (TextMessage `"hi") [] = None
      /\ length (filter (fun r => match r with ReqSendMessage => true | _ => false end) w')
         = 5.
Proof.
  split; [exact sampleTable_reachable|].
  split; [exact sampleEnv_always_requests_calls|].
  destruct (proj2 (dispatch_loop_bounded sampleTable_reachable)
              sampleEnv_always_requests_calls (TextMessage `"hi") [])
    as (w' & Hsome & Hnone & _).
  exists w'. split; [apply Hsome; unfold maxAttempts; lia|].
  split; [apply Hnone; unfold maxAttempts; lia|].
  specialize (Hsome 6 (Nat.lt_succ_diag_r 5)).
  vm_compute in Hsome. injection Hsome as <-. reflexivity.
Defined.

(** * Further properties of the code *)

(** ** The translator, property by property *)



Section TranslatorFacts.
Variable Json : Type.
Variable String_of : Json -> jsstring.

Local Arguments Js.lit : simpl never.



Lemma translateProperty_none key (s : McpJsonSchema Json) :
  translateProperty String_of key s = None <-> translatable s = false.
Proof.
  destruct s as [b|ty d e p i r]; simpl; [tauto|].
  destruct (mcpSchemaTypeToGeminiSchemaType ty); simpl;
    split; congruence.
Qed.



(** The loop body on a schema object, case by case on the resolved type. *)
Lemma translateProperty_cases key ty d en p i r out :
  translateProperty String_of key (SchemaObject ty d en p i r) = Some out ->
  exists geminiType,
    mcpSchemaTypeToGeminiSchemaType ty = Some geminiType
    /\ type out = geminiType
    /\ description out = Some (Js.or_else d (`"Parameter " ++ key))
    /\ enum out = (if SchemaType_eqb geminiType STRING
                   then option_map (map String_of) en else None)
    /\ items out
       = (match geminiType, i with
          | ARRAY, Some (ItemsSingle (SchemaObject _ _ _ _ _ _ as itemNode)) =>
              translateMcpSchemaToGeminiSchema String_of itemNode
          | _, _ => None
          end)
    /\ properties out
       = (match geminiType with
          | OBJECT => translateMcpPropertiesToGeminiProperties String_of p
          | _ => None
          end)
    /\ required out
       = (match geminiType, p with
          | OBJECT, Some _ => r
          | _, _ => None
          end).
Proof.
  simpl. destruct (mcpSchemaTypeToGeminiSchemaType ty) as [g|]; [|discriminate].
  intros [= <-]. exists g. split; [reflexivity|].
  destruct en as [e|]; destruct g; simpl; try (repeat split; reflexivity).
  all: try (destruct i as [[[[|]|ity idesc ien ip ii ir]|l]|]; simpl;
            try (repeat split; reflexivity);
            destruct (negb (type_is_object ity)); simpl;
            repeat split; reflexivity).
  all: destruct p as [nested|]; simpl; [|repeat split; reflexivity];
    repeat split; try reflexivity; destruct r; reflexivity.
Qed.

(** X2. [enum] is carried over only onto STRING properties, and then with
    every literal turned into a string; on any other type it is left out. *)
Theorem enum_only_on_string_properties :
  forall key ty d en p i r out,
    translateProperty String_of key (SchemaObject ty d en p i r) = Some out ->
    (type out = STRING -> enum out = option_map (map String_of) en)
    /\ (type out <> STRING -> enum out = None).
Proof.
  intros key ty d en p i r out H.
  destruct (translateProperty_cases _ _ _ _ _ _ _ H)
    as (g & _ & T & _ & E & _).
  rewrite E, T. split; intros G.
  - rewrite G. reflexivity.
  - destruct g; try reflexivity. congruence.
Qed.

(** X3. The shape of every translated property: a non-empty description;
    [items] only on an ARRAY and then always an OBJECT schema with
    [properties] and [required] set; [properties] only on an OBJECT, and
    [required] only beside [properties]. *)
Theorem translated_property_shape :
  forall key (s : McpJsonSchema Json) out,
    translateProperty String_of key s = Some out ->
    (exists text, description out = Some text /\ text <> [])
    /\ (forall itemSchema,
           items out = Some itemSchema ->
           type out = ARRAY
           /\ type itemSchema = OBJECT
           /\ properties itemSchema <> None
           /\ required itemSchema <> None)
    /\ (properties out <> None -> type out = OBJECT)
    /\ (required out <> None -> properties out <> None).
Proof.
  intros key [b|ty d en p i r] out H; [discriminate|].
  destruct (translateProperty_cases _ _ _ _ _ _ _ H)
    as (g & _ & T & D & _ & I & P & R).
  split; [|split; [|split]].
  - eexists; split; [exact D|].
    destruct d as [[|c rest]|]; simpl; try discriminate;
      unfold Js.lit; simpl; discriminate.
  - intros itemSchema S. rewrite S in I.
    destruct g; try discriminate.
    destruct i as [[[b|ity idesc ien ip ii ir]|l]|]; try discriminate.
    simpl in I. split; [exact T|].
    destruct (negb (type_is_object ity)); injection I as ->; simpl;
      repeat split; discriminate.
  - intros N. rewrite P in N. destruct g; congruence.
  - intros N. rewrite R in N. rewrite P.
    destruct g; try congruence. destruct p; [discriminate | congruence].
Qed.

(** X4. An ARRAY property takes its [items] from a single schema object
    only; a tuple of schemas, a boolean schema or no [items] leave it unset.
    An item schema whose own [type] is not the string ["object"] -- a string
    or a number, say -- comes out as the empty object schema. *)
Theorem array_items_translation :
  forall key ty d en p r,
    mcpSchemaTypeToGeminiSchemaType ty = Some ARRAY ->
    (forall ity idesc ien ip ii ir,
        exists out,
          translateProperty String_of key
            (SchemaObject ty d en p
               (Some (ItemsSingle (SchemaObject ity idesc ien ip ii ir))) r)
          = Some out
          /\ items out
             = translateMcpSchemaToGeminiSchema String_of
                 (SchemaObject ity idesc ien ip ii ir)
          /\ (ity <> TypeName `"object" ->
              items out = Some (mkSchema OBJECT None None None (Some []) (Some []))))
    /\ (forall i,
           (forall ity idesc ien ip ii ir,
               i <> Some (ItemsSingle (SchemaObject ity idesc ien ip ii ir))) ->
           exists out,
             translateProperty String_of key (SchemaObject ty d en p i r) = Some out
             /\ type out = ARRAY
             /\ items out = None).
Proof.
  intros key ty d en p r A. split.
  - intros ity idesc ien ip ii ir.
    destruct (translateProperty String_of key
                (SchemaObject ty d en p
                   (Some (ItemsSingle (SchemaObject ity idesc ien ip ii ir))) r))
      as [out|] eqn:H.
    + exists out. split; [reflexivity|].
      destruct (translateProperty_cases _ _ _ _ _ _ _ H)
        as (g & G & _ & _ & _ & I & _).
      rewrite A in G. injection G as <-. split; [exact I|].
      intros N. rewrite I. simpl. rewrite (type_is_not_object N). reflexivity.
    + apply (proj1 (translateProperty_none _ _)) in H. simpl in H.
      rewrite A in H. discriminate.
  - intros i N.
    destruct (translateProperty String_of key (SchemaObject ty d en p i r))
      as [out|] eqn:H.
    + exists out. split; [reflexivity|].
      destruct (translateProperty_cases _ _ _ _ _ _ _ H)
        as (g & G & T & _ & _ & I & _).
      rewrite A in G. injection G as <-. split; [exact T|].
      rewrite I. destruct i as [[[b|ity idesc ien ip ii ir]|l]|]; try reflexivity.
      destruct (N ity idesc ien ip ii ir). reflexivity.
    + apply (proj1 (translateProperty_none _ _)) in H. simpl in H.
      rewrite A in H. discriminate.
Qed.

(** X5. A [type] array resolves through its first entry that is not the
    JSON value [null], and through that entry alone: leading [null]s are
    skipped, whatever follows the first string is ignored, and an array of
    [null]s resolves to nothing. The string ["null"] is such a first entry:
    an array that starts with it resolves to nothing and the property is
    dropped, whatever follows. *)
Theorem type_array_resolves_by_first_string :
  (forall nulls t rest,
      mcpSchemaTypeToGeminiSchemaType
        (TypeList (repeat None nulls ++ Some t :: rest))
      = mcpSchemaTypeToGeminiSchemaType (TypeName t))
  /\ (forall nulls,
         mcpSchemaTypeToGeminiSchemaType (TypeList (repeat None nulls)) = None)
  /\ (forall nulls rest key d en
             (p : option (list (jsstring * McpJsonSchema Json))) i r,
         translateProperty String_of key
           (SchemaObject (TypeList (repeat None nulls ++ Some `"null" :: rest))
              d en p i r) = None).
Proof.
  assert (F : forall nulls t rest,
             find (fun t : option jsstring =>
                     match t with Some _ => true | None => false end)
               (repeat None nulls ++ Some t :: rest) = Some (Some t)).
  { induction nulls as [|n IH]; intros t rest; simpl; auto. }
  assert (A : forall nulls t rest,
             mcpSchemaTypeToGeminiSchemaType
               (TypeList (repeat None nulls ++ Some t :: rest))
             = mcpSchemaTypeToGeminiSchemaType (TypeName t)).
  { intros nulls t rest. unfold mcpSchemaTypeToGeminiSchemaType.
    rewrite F. destruct t; reflexivity. }
  split; [exact A|]. split.
  - induction nulls as [|n IH]; [reflexivity|]. exact IH.
  - intros nulls rest key d en p i r.
    apply (proj2 (translateProperty_none key _)). unfold translatable.
    rewrite A. reflexivity.
Qed.

End TranslatorFacts.


Lemma enum_only_on_string_properties_witness :
  exists unit days,
    translateProperty JsonLit_String `"unit"
      (SchemaObject (TypeName `"string") None
         (Some [JsonString `"C"; JsonBool true]) None None None) = Some unit
    /\ enum unit = Some [`"C"; `"true"]
    /\ translateProperty JsonLit_String `"days"
         (SchemaObject (TypeName `"integer") (Some `"How many days")
            (Some [JsonNull]) None None None) = Some days
    /\ enum days = None.
Proof.
  do 2 eexists.
  assert (U : translateProperty JsonLit_String `"unit"
                (SchemaObject (TypeName `"string") None
                   (Some [JsonString `"C"; JsonBool true]) None None None)
              = Some (mkSchema STRING (Some `"Parameter unit")
                        (Some [`"C"; `"true"]) None None None)) by reflexivity.
  assert (Y : translateProperty JsonLit_String `"days"
                (SchemaObject (TypeName `"integer") (Some `"How many days")
                   (Some [JsonNull]) None None None)
              = Some (mkSchema INTEGER (Some `"How many days")
                        None None None None)) by reflexivity.
  split; [exact U|]. split.
  - exact (proj1 (enum_only_on_string_properties JsonLit_String _ _ _ _ _ _ _ U)
             eq_refl).
  - split; [exact Y|].
    apply (proj2 (enum_only_on_string_properties JsonLit_String _ _ _ _ _ _ _ Y)).
    discriminate.
Defined.

Lemma translated_property_shape_witness :
  exists tags text,
    translateProperty JsonLit_String `"tags"
      (SchemaObject (TypeName `"array") None None None
         (Some (ItemsSingle
                  (SchemaObject (TypeName `"string") None None None None None)))
         None) = Some tags
    /\ description tags = Some text /\ text <> []
    /\ (properties tags <> None -> type tags = OBJECT).
Proof.
  eexists.
  assert (T : translateProperty JsonLit_String `"tags"
                (SchemaObject (TypeName `"array") None None None
                   (Some (ItemsSingle
                            (SchemaObject (TypeName `"string") None None None None None)))
                   None)
              = Some (mkSchema ARRAY (Some `"Parameter tags") None
                        (Some (mkSchema OBJECT None None None (Some []) (Some [])))
                        None None)) by reflexivity.
  destruct (translated_property_shape JsonLit_String _ _ T)
    as ((text & D & N) & _ & P & _).
  exists text. split; [exact T|]. split; [exact D|]. split; [exact N | exact P].
Defined.

Lemma array_items_translation_witness :
  mcpSchemaTypeToGeminiSchemaType (TypeName `"array") = Some ARRAY
  /\ (exists out,
         translateProperty JsonLit_String `"tags"
           (SchemaObject (TypeName `"array") None None None
              (Some (ItemsSingle
                       (SchemaObject (TypeName `"string") None None None None None)))
              None) = Some out
         /\ items out = Some (mkSchema OBJECT None None None (Some []) (Some [])))
  /\ (exists out,
         translateProperty JsonLit_String `"pair"
           (SchemaObject (TypeName `"array") None None None
              (Some (ItemsTuple [BooleanSchema true; BooleanSchema true])) None)
         = Some out
         /\ type out = ARRAY /\ items out = None).
Proof.
  assert (A : mcpSchemaTypeToGeminiSchemaType (TypeName `"array") = Some ARRAY)
    by reflexivity.
  split; [exact A|].
  destruct (array_items_translation JsonLit_String `"tags"
              (TypeName `"array") None None None None A) as [S _].
  destruct (array_items_translation JsonLit_String `"pair"
              (TypeName `"array") None None None None A) as [_ O].
  split.
  - destruct (S (TypeName `"string") None None None None None) as (out & E & _ & I).
    exists out. split; [exact E|]. apply I. discriminate.
  - apply O. intros; discriminate.
Defined.

(** ** The registry *)

Lemma sanitize_app (a b : jsstring) : sanitize (a ++ b) = sanitize a ++ sanitize b.
Proof. apply map_app. Qed.

Lemma sanitize_length (s : jsstring) : length (sanitize s) = length s.
Proof. apply length_map. Qed.

Lemma sanitize_idempotent (s : jsstring) : sanitize (sanitize s) = sanitize s.
Proof.
  unfold sanitize. rewrite map_map. apply map_ext. intros c.
  destruct (is_identifier_unit c) eqn:E; [rewrite E; reflexivity | reflexivity].
Qed.

Lemma geminiFunctionNameFor_truncates (mcpServerName toolName : jsstring) :
  geminiFunctionNameFor mcpServerName toolName
  = firstn 63 (sanitize mcpServerName ++ `"_" ++ sanitize toolName).
Proof.
  unfold geminiFunctionNameFor, maxFunctionNameLength.
  destruct (63 <? length (sanitize mcpServerName ++ `"_" ++ sanitize toolName))
    eqn:L; [reflexivity|].
  apply Nat.ltb_ge in L. symmetry. apply firstn_all2. exact L.
Qed.

Lemma geminiFunctionNameFor_identifier (mcpServerName toolName : jsstring) :
  length (geminiFunctionNameFor mcpServerName toolName) <= 63
  /\ matches_identifier (geminiFunctionNameFor mcpServerName toolName).
Proof.
  rewrite geminiFunctionNameFor_truncates. split; [apply firstn_le_length|].
  split.
  - destruct (sanitize mcpServerName); discriminate.
  - apply Forall_firstn, Forall_app. split; [apply sanitize_identifier|].
    constructor; [|apply sanitize_identifier].
    unfold identifier_unit. right; right; right. reflexivity.
Qed.

(** X7. The derived name does not determine the pair it came from. Names
    that sanitize alike give the same function name; an underscore can be
    read as the separator or as part of either name; and once the server
    name alone fills the 63 code units, every tool of that server gets the
    same function name. *)
Theorem function_name_collisions :
  (forall mcpServerName toolName,
      geminiFunctionNameFor (sanitize mcpServerName) (sanitize toolName)
      = geminiFunctionNameFor mcpServerName toolName)
  /\ (forall a b c,
         geminiFunctionNameFor (a ++ `"_" ++ b) c
         = geminiFunctionNameFor a (b ++ `"_" ++ c))
  /\ (forall mcpServerName toolName otherTool,
         63 <= length mcpServerName ->
         geminiFunctionNameFor mcpServerName toolName
         = geminiFunctionNameFor mcpServerName otherTool).
Proof.
  split; [|split].
  - intros s t. rewrite !geminiFunctionNameFor_truncates, !sanitize_idempotent.
    reflexivity.
  - intros a b c. rewrite !geminiFunctionNameFor_truncates, !sanitize_app.
    rewrite <- !app_assoc. reflexivity.
  - intros s t u L. rewrite !geminiFunctionNameFor_truncates.
    rewrite !firstn_app, sanitize_length.
    replace (63 - length s) with 0 by lia. reflexivity.
Qed.

Lemma function_name_collisions_witness :
  63 <= length longServerName
  /\ geminiFunctionNameFor longServerName `"forecast"
     = geminiFunctionNameFor longServerName `"delete_everything".
Proof.
  assert (L : 63 <= length longServerName) by (vm_compute; lia).
  split; [exact L|].
  exact (proj2 (proj2 function_name_collisions)
           longServerName `"forecast" `"delete_everything" L).
Defined.

Section RegistryLookupFacts.
Variable Json : Type.
Variable String_of : Json -> jsstring.

Local Arguments Js.lit : simpl never.

(** X6. A tool is given a function declaration exactly when its
    [inputSchema] is a schema object whose [type] is the string ["object"].
    The declaration then carries the derived name, the translation of the
    schema, and a description that is never empty: the tool's own when it
    has a non-empty one, a generated one otherwise. *)
Theorem tool_is_declared_iff_object_typed :
  forall (mcpTool : McpToolSchema Json) (mcpServerName : jsstring),
    (forall d e p i r,
        inputSchema mcpTool = Some (SchemaObject (TypeName `"object") d e p i r) ->
        exists geminiFuncDecl,
          mcpToolToGeminiFunction String_of mcpTool mcpServerName
          = Some geminiFuncDecl
          /\ name geminiFuncDecl
             = geminiFunctionNameFor mcpServerName (tool_name mcpTool)
          /\ Some (parameters geminiFuncDecl)
             = translateMcpSchemaToGeminiSchema String_of
                 (SchemaObject (TypeName `"object") d e p i r)
          /\ declaration_description geminiFuncDecl <> []
          /\ (forall c text,
                 tool_description mcpTool = Some (c :: text) ->
                 declaration_description geminiFuncDecl = c :: text))
    /\ (forall geminiFuncDecl,
           mcpToolToGeminiFunction String_of mcpTool mcpServerName
           = Some geminiFuncDecl ->
           exists d e p i r,
             inputSchema mcpTool
             = Some (SchemaObject (TypeName `"object") d e p i r)).
Proof.
  intros mcpTool mcpServerName. split.
  - intros d e p i r I. unfold mcpToolToGeminiFunction. rewrite I.
    cbn [type_is_object]. rewrite Js_eqb_refl. cbn [negb].
    rewrite translate_object_schema. eexists. split; [reflexivity|].
    cbn [name parameters declaration_description].
    split; [reflexivity|]. split; [reflexivity|]. split.
    + destruct (tool_description mcpTool) as [[|c text]|]; simpl;
        try discriminate; unfold Js.lit; simpl; discriminate.
    + intros c text D. rewrite D. reflexivity.
  - intros decl H. unfold mcpToolToGeminiFunction in H.
    destruct (inputSchema mcpTool) as [[b|ty d e p i r]|]; try discriminate.
    destruct (type_is_object ty) eqn:T; [|discriminate].
    apply type_is_object_iff in T. subst ty. eauto 6.
Qed.

Lemma find_first_match (table : Table) (geminiFunctionName : jsstring) m :
  findDynamicallyMappedTool table geminiFunctionName = Some m ->
  exists before after,
    table = before ++ m :: after
    /\ name (geminiFunctionDeclaration m) = geminiFunctionName
    /\ forall m', In m' before ->
                  name (geminiFunctionDeclaration m') <> geminiFunctionName.
Proof.
  unfold findDynamicallyMappedTool.
  induction table as [|x table IH]; simpl; [discriminate|].
  destruct (Js.eqb (name (geminiFunctionDeclaration x)) geminiFunctionName) eqn:E.
  - intros [= <-]. exists [], table. apply Js_eqb_eq in E.
    split; [reflexivity|]. split; [exact E|]. intros m' [].
  - intros H. destruct (IH H) as (before & after & -> & N & B).
    exists (x :: before), after. split; [reflexivity|]. split; [exact N|].
    intros m' [<-|I]; [apply Js_eqb_neq; exact E | apply B; exact I].
Qed.

Lemma find_shadowing (before after : Table) m geminiFunctionName :
  name (geminiFunctionDeclaration m) = geminiFunctionName ->
  (forall m', In m' before ->
              name (geminiFunctionDeclaration m') <> geminiFunctionName) ->
  findDynamicallyMappedTool (before ++ m :: after) geminiFunctionName = Some m.
Proof.
  intros N B. unfold findDynamicallyMappedTool.
  induction before as [|x before IH]; simpl.
  - rewrite (proj2 (Js_eqb_eq _ _) N). reflexivity.
  - rewrite (proj2 (Js_eqb_neq _ _) (B x (or_introl eq_refl))).
    apply IH. intros m' I. apply B. right; exact I.
Qed.

(** X8. Lookup by function name returns the first mapping carrying the
    name: whatever else carries it further down the table is never
    returned. It returns nothing exactly when no mapping carries the name. *)
Theorem lookup_returns_first_match :
  forall (table : Table) (geminiFunctionName : jsstring),
    (forall m,
        findDynamicallyMappedTool table geminiFunctionName = Some m <->
        exists before after,
          table = before ++ m :: after
          /\ name (geminiFunctionDeclaration m) = geminiFunctionName
          /\ forall m', In m' before ->
                        name (geminiFunctionDeclaration m') <> geminiFunctionName)
    /\ (findDynamicallyMappedTool table geminiFunctionName = None <->
        forall m, In m table ->
                  name (geminiFunctionDeclaration m) <> geminiFunctionName).
Proof.
  intros table n. split.
  - intros m. split; [apply find_first_match|].
    intros (before & after & -> & N & B). apply find_shadowing; assumption.
  - split.
    + intros H m I E.
      unfold findDynamicallyMappedTool in H.
      apply (find_none _ _ H) in I. apply Js_eqb_neq in I. contradiction.
    + intros H. destruct (findDynamicallyMappedTool table n) as [m|] eqn:F;
        [|reflexivity].
      apply find_first_match in F. destruct F as (before & after & -> & N & _).
      destruct (H m); [apply in_or_app; right; left; reflexivity | exact N].
Qed.

(** X9. Every declaration handed to the model resolves: looking its name up
    finds a mapping of the table under that very name. When the names in the
    table are pairwise distinct, looking up a mapping's name gives back that
    mapping. One declaration is handed out per mapping, in table order. *)
Theorem declared_functions_resolve :
  forall table : Table,
    length (getDynamicallyGeneratedGeminiFunctionDeclarations table) = length table
    /\ (forall geminiFuncDecl,
           In geminiFuncDecl (getDynamicallyGeneratedGeminiFunctionDeclarations table) ->
           exists m,
             findDynamicallyMappedTool table (name geminiFuncDecl) = Some m
             /\ In m table
             /\ name (geminiFunctionDeclaration m) = name geminiFuncDecl)
    /\ (NoDup (map name (getDynamicallyGeneratedGeminiFunctionDeclarations table)) ->
        forall m, In m table ->
                  findDynamicallyMappedTool table
                    (name (geminiFunctionDeclaration m)) = Some m).
Proof.
  intros table. unfold getDynamicallyGeneratedGeminiFunctionDeclarations.
  split; [apply length_map|]. split.
  - intros d I. apply in_map_iff in I. destruct I as (m0 & <- & I0).
    destruct (findDynamicallyMappedTool table
                (name (geminiFunctionDeclaration m0))) as [m|] eqn:F.
    + exists m. split; [reflexivity|].
      apply find_first_match in F. destruct F as (before & after & -> & N & _).
      split; [apply in_or_app; right; left; reflexivity | exact N].
    + exfalso. unfold findDynamicallyMappedTool in F.
      apply (find_none _ _ F) in I0. rewrite Js_eqb_refl in I0. discriminate.
  - rewrite map_map. intros D m I.
    apply in_split in I. destruct I as (before & after & ->).
    apply find_shadowing; [reflexivity|].
    intros m' I' E. rewrite map_app in D. simpl in D.
    apply NoDup_remove_2 in D. apply D. apply in_or_app. left.
    rewrite <- E. apply in_map_iff. exists m'. auto.
Qed.

End RegistryLookupFacts.

Lemma lookup_returns_first_match_witness :
  map (fun m => (name (geminiFunctionDeclaration m), mcpToolName m)) collidingTable
  = [(`"my_server_get_x", `"get.x"); (`"my_server_get_x", `"get-x")]
  /\ option_map mcpToolName
       (findDynamicallyMappedTool collidingTable `"my_server_get_x")
     = Some `"get.x".
Proof.
  split; [reflexivity|].
  assert (E : collidingTable
              = [] ++ mappingOf myServer dotTool
                        {| name := `"my_server_get_x";
                           declaration_description := `"dot";
                           parameters :=
                             mkSchema OBJECT None None None
                               (Some [(`"city",
                                       mkSchema STRING (Some `"City") None None None None)])
                               (Some [`"city"; `"anything"]) |}
                   :: [mappingOf myServer dashTool
                         {| name := `"my_server_get_x";
                            declaration_description := `"dash";
                            parameters :=
                              mkSchema OBJECT None None None
                                (Some [(`"city",
                                        mkSchema STRING (Some `"City") None None None None)])
                                (Some [`"city"; `"anything"]) |}])
    by reflexivity.
  rewrite (proj2 (proj1 (lookup_returns_first_match collidingTable
                           `"my_server_get_x") _)
             (ex_intro _ [] (ex_intro _ _
                (conj E (conj eq_refl (fun m' (I : In m' []) => match I with end)))))).
  reflexivity.
Defined.

Lemma declared_functions_resolve_witness :
  NoDup (map name (getDynamicallyGeneratedGeminiFunctionDeclarations sampleTable))
  /\ forall m, In m sampleTable ->
               findDynamicallyMappedTool sampleTable
                 (name (geminiFunctionDeclaration m)) = Some m.
Proof.
  assert (D : NoDup (map name
                       (getDynamicallyGeneratedGeminiFunctionDeclarations sampleTable))).
  { repeat constructor. intros []. }
  split; [exact D|].
  exact (proj2 (proj2 (declared_functions_resolve sampleTable)) D).
Defined.

Lemma tool_is_declared_iff_object_typed_witness :
  exists geminiFuncDecl,
    mcpToolToGeminiFunction JsonLit_String forecastTool `"my server"
    = Some geminiFuncDecl
    /\ name geminiFuncDecl = `"my_server_forecast"
    /\ declaration_description geminiFuncDecl = `"Weather forecast".
Proof.
  destruct (proj1 (tool_is_declared_iff_object_typed JsonLit_String
                     forecastTool `"my server")
              None None
              (Some [(`"city", citySchema); (`"anything", BooleanSchema true)])
              None (Some [`"city"; `"anything"]) eq_refl)
    as (decl & E & N & _ & _ & D).
  exists decl. split; [exact E|]. split; [exact N|].
  exact (D _ _ eq_refl).
Defined.

(** ** Discovery, server by server *)

Section DiscoveryStepFacts.
Variable Json : Type.
Variable String_of : Json -> jsstring.
Variable World : Type.
Variable env : Environment Json World.

Local Arguments mapMcpTools : simpl never.

Let url_parses (serverConfig : McpServerConfig) : Prop :=
  URL_new env (server_url serverConfig) = Return tt.

Lemma discoverServers_app (a b : list McpServerConfig) :
  forall table w,
    discoverServers String_of env (a ++ b) table w
    = match discoverServers String_of env a table w with
      | (Return _, table', w') => discoverServers String_of env b table' w'
      | (Throw e, table', w') => (Throw e, table', w')
      end.
Proof.
  induction a as [|serverConfig a IH]; intros table w; [reflexivity|].
  simpl. destruct (new_GenericMcpClient env (server_url serverConfig));
    [|reflexivity].
  destruct (discoverOnServer String_of env serverConfig a0 table w)
    as [[table1 mcpClient1] w1].
  apply IH.
Qed.

Lemma discoverServers_returns (servers : list McpServerConfig) :
  Forall url_parses servers ->
  forall table w, exists table' w',
    discoverServers String_of env servers table w = (Return tt, table', w').
Proof.
  induction 1 as [|serverConfig servers U _ IH]; intros table w; simpl; [eauto|].
  unfold new_GenericMcpClient. unfold url_parses in U. rewrite U.
  destruct (discoverOnServer String_of env serverConfig _ table w)
    as [[table1 mcpClient1] w1].
  apply IH.
Qed.

(** X10. Discovery raises only when a configured URL does not parse. With
    URLs that all parse it returns normally, whatever the servers do. At the
    first URL that does not parse it raises that error at once: the servers
    before it have been visited and their mappings are in the table, the
    servers after it are never tried. *)
Theorem discovery_raises_only_on_unparsable_url :
  (forall configuredServers previous w,
      Forall url_parses configuredServers ->
      exists table w',
        discoverAndMapAllMcpTools String_of env configuredServers previous w
        = (Return tt, table, w'))
  /\ (forall visited unparsable notTried e previous w,
         Forall url_parses visited ->
         URL_new env (server_url unparsable) = Throw e ->
         exists table w',
           discoverAndMapAllMcpTools String_of env visited previous w
           = (Return tt, table, w')
           /\ discoverAndMapAllMcpTools String_of env
                (visited ++ unparsable :: notTried) previous w
              = (Throw e, table, w')).
Proof.
  split.
  - intros servers previous w U. apply discoverServers_returns. exact U.
  - intros visited bad rest e previous w U B.
    destruct (discoverServers_returns U [] w) as (table & w' & E).
    exists table, w'. unfold discoverAndMapAllMcpTools.
    split; [exact E|]. rewrite discoverServers_app, E. simpl.
    unfold new_GenericMcpClient. rewrite B. reflexivity.
Qed.


Lemma table_reachable_built table :
  table_reachable String_of env table ->
  exists servers, Forall (built_from String_of env servers) table.
Proof.
  intros R. destruct R as [|servers previous w o table w' _ D].
  - exists []. constructor.
  - exists servers.
    destruct (discoverServers_appends String_of env servers w)
      as (o1 & added & w1 & E & B & _).
    unfold discoverAndMapAllMcpTools in D. rewrite E in D.
    injection D as <- <- <-. simpl. apply B, incl_refl.
Qed.

(** X12. In every table a session can hold, each mapping's function name is
    the name derived from the server and tool names recorded beside it, has
    at most 63 code units and matches [[A-Za-z0-9_]+]; its parameter schema
    is an OBJECT schema with [properties] and [required] set; and its server
    URL parses. *)
Theorem registered_mappings_are_well_formed :
  forall table,
    table_reachable String_of env table ->
    forall m, In m table ->
      name (geminiFunctionDeclaration m)
      = geminiFunctionNameFor (mcpServerName m) (mcpToolName m)
      /\ length (name (geminiFunctionDeclaration m)) <= 63
      /\ matches_identifier (name (geminiFunctionDeclaration m))
      /\ type (parameters (geminiFunctionDeclaration m)) = OBJECT
      /\ properties (parameters (geminiFunctionDeclaration m)) <> None
      /\ required (parameters (geminiFunctionDeclaration m)) <> None
      /\ URL_new env (mcpServerUrl m) = Return tt.
Proof.
  intros table R m I.
  destruct (table_reachable_built R) as (servers & B).
  rewrite Forall_forall in B.
  destruct (B m I)
    as (srv & tool & decl & wa & wb & response & listed
        & _ & U & _ & _ & _ & D & ->).
  pose proof (mcpToolToGeminiFunction_name _ _ _ D) as N. cbn.
  rewrite N. split; [reflexivity|].
  destruct (geminiFunctionNameFor_identifier (server_name srv) (tool_name tool))
    as [L M].
  split; [exact L|]. split; [exact M|].
  unfold mcpToolToGeminiFunction in D.
  destruct (inputSchema tool) as [[b|ty d e p i r]|]; try discriminate.
  destruct (type_is_object ty) eqn:T; [|discriminate]. simpl in D.
  rewrite T in D. simpl in D. injection D as <-. cbn.
  repeat split; try discriminate. exact U.
Qed.

End DiscoveryStepFacts.

Lemma discovery_raises_only_on_unparsable_url_witness :
  Forall (fun s => URL_new sampleEnv (server_url s) = Return tt)
    [downServer; myServer]
  /\ URL_new sampleEnv (server_url badUrlServer)
     = Throw {| message := `"Invalid URL" |}
  /\ discoverAndMapAllMcpTools JsonLit_String sampleEnv
       ([downServer; myServer] ++ badUrlServer :: [emptyServer]) [] []
     = (Throw {| message := `"Invalid URL" |}, sampleTable,
        [ReqConnect `"http://down.example/mcp";
         ReqConnect `"http://localhost:8080/mcp";
         ReqListTools `"http://localhost:8080/mcp";
         ReqClose `"http://localhost:8080/mcp"]).
Proof.
  assert (U : Forall (fun s => URL_new sampleEnv (server_url s) = Return tt)
                [downServer; myServer]) by (repeat constructor).
  assert (B : URL_new sampleEnv (server_url badUrlServer)
              = Throw {| message := `"Invalid URL" |}) by reflexivity.
  split; [exact U|]. split; [exact B|].
  destruct (proj2 (discovery_raises_only_on_unparsable_url JsonLit_String sampleEnv)
              [downServer; myServer] badUrlServer [emptyServer] _ [] [] U B)
    as (table & w' & E1 & E2).
  rewrite E2. vm_compute in E1. injection E1 as <- <-. reflexivity.
Defined.


Lemma registered_mappings_are_well_formed_witness :
  table_reachable JsonLit_String sampleEnv sampleTable
  /\ Forall (fun m =>
               name (geminiFunctionDeclaration m) = `"my_server_forecast"
               /\ length (name (geminiFunctionDeclaration m)) <= 63)
       sampleTable.
Proof.
  split; [exact sampleTable_reachable|].
  apply Forall_forall. intros m I.
  destruct (registered_mappings_are_well_formed sampleTable_reachable m I)
    as (N & L & _).
  split; [|exact L]. destruct I as [<-|[]]. reflexivity.
Defined.

(** ** The client's connection state *)

Section ClientLifecycleFacts.
Variable Json : Type.
Variable World : Type.
Variable env : Environment Json World.

(** X13. [connect] and [disconnect] are idempotent and keep the flag in
    step with the connection: [connect] on a connected client and
    [disconnect] on a disconnected one do nothing at all; [connect] leaves
    the client connected exactly when it returns; [disconnect] never raises
    and always leaves the client disconnected, also when closing fails. *)
Theorem client_connection_lifecycle :
  forall (this : GenericMcpClient) (w : World),
    (connected this = true -> connect env this w = (Return tt, this, w))
    /\ (connected this = false -> disconnect env this w = (Return tt, this, w))
    /\ (forall o this' w',
           connect env this w = (o, this', w') ->
           (connected this' = true <-> o = Return tt)
           /\ connect env this' w'
              = (match o with
                 | Return _ => (Return tt, this', w')
                 | Throw _ => connect env (set_connected false this) w'
                 end))
    /\ (forall o this' w',
           disconnect env this w = (o, this', w') ->
           o = Return tt /\ connected this' = false
           /\ serverUrl this' = serverUrl this
           /\ disconnect env this' w' = (Return tt, this', w')).
Proof.
  intros this w. split; [|split; [|split]].
  - intros C. unfold connect. rewrite C. reflexivity.
  - intros C. unfold disconnect. rewrite C. reflexivity.
  - intros o this' w' H. unfold connect in H.
    destruct (connected this) eqn:C.
    + injection H as <- <- <-. split; [tauto|].
      unfold connect. rewrite C. reflexivity.
    + destruct (Client_connect env (serverUrl this) w) as [[[]|e] w1];
        injection H as <- <- <-; simpl.
      * split; [tauto|]. reflexivity.
      * split; [split; discriminate|]. reflexivity.
  - intros o this' w' H. unfold disconnect in H.
    destruct (connected this) eqn:C; simpl in H.
    + destruct (Client_close env (serverUrl this) w) as [closing w1].
      injection H as <- <- <-. repeat split.
    + injection H as <- <- <-. repeat split; try assumption.
      unfold disconnect. rewrite C. reflexivity.
Qed.

End ClientLifecycleFacts.

Lemma client_connection_lifecycle_witness :
  connect sampleEnv connectedClient [] = (Return tt, connectedClient, [])
  /\ disconnect sampleEnv freshClient [] = (Return tt, freshClient, [])
  /\ disconnect sampleEnv connectedClient []
     = (Return tt, freshClient, [ReqClose `"http://localhost:8080/mcp"]).
Proof.
  destruct (client_connection_lifecycle sampleEnv connectedClient [])
    as (C & _ & _ & D).
  destruct (client_connection_lifecycle sampleEnv freshClient [])
    as (_ & F & _ & _).
  split; [exact (C eq_refl)|]. split; [exact (F eq_refl)|].
  destruct (disconnect sampleEnv connectedClient []) as [[o this'] w'] eqn:E.
  destruct (D o this' w' eq_refl) as (-> & _ & _ & _).
  vm_compute in E. injection E as <- <-. reflexivity.
Defined.

(** ** One round of tool calls *)

Section RoundFacts.
Variable Json : Type.
Variable String_of : Json -> jsstring.
Variable World : Type.
Variable env : Environment Json World.

Local Arguments Js.lit : simpl never.

(** X14. A reply that asks for no function call ends the turn after that
    one model call, with no tool traffic: the reply's text is returned, or
    the empty-response message when it has none, and the counting
    environment shows one model call and no connection. A missing reply
    gives the no-response message, and an error raised by the model call is
    passed on. *)
Theorem turn_without_function_calls :
  forall (tools : Table) fuel msg w,
    (forall response w1,
        ChatSession_sendMessage env msg w = (Return (Some response), w1) ->
        functionCalls response = None \/ functionCalls response = Some [] ->
        toolCallingLoop env (S fuel) tools 0 msg w
        = Some (Return (match text response with
                        | Some t => t
                        | None => emptyResponseMessage
                        end), w1)
        /\ toolCallingLoop (tallying env) (S fuel) tools 0 msg (w, noTally)
           = Some (Return (match text response with
                           | Some t => t
                           | None => emptyResponseMessage
                           end),
                   (w1, {| sent := 1; opened := 0; closed := 0 |})))
    /\ (forall w1,
           ChatSession_sendMessage env msg w = (Return None, w1) ->
           toolCallingLoop env (S fuel) tools 0 msg w
           = Some (Return noResponseMessage, w1))
    /\ (forall e w1,
           ChatSession_sendMessage env msg w = (Throw e, w1) ->
           toolCallingLoop env (S fuel) tools 0 msg w = Some (Throw e, w1)).
Proof.
  intros tools fuel msg w. split; [|split].
  - intros response w1 S [F|F]; split; cbn [toolCallingLoop]; simpl;
      rewrite S, F; destruct (text response); reflexivity.
  - intros w1 S. cbn [toolCallingLoop]. simpl. rewrite S. reflexivity.
  - intros e w1 S. cbn [toolCallingLoop]. simpl. rewrite S. reflexivity.
Qed.

(** One mapped call, by how its connection and its request go. *)
Lemma executeFunctionCalls_mapped (tools : Table) (call : FunctionCall Json)
    mappedTool rest toolResponses w :
  findDynamicallyMappedTool tools (call_name call) = Some mappedTool ->
  URL_new env (mcpServerUrl mappedTool) = Return tt ->
  executeFunctionCalls env tools (call :: rest) toolResponses w
  = match Client_connect env (mcpServerUrl mappedTool) w with
    | (Throw e, w1) =>
        executeFunctionCalls env tools rest
          (toolResponses
             ++ [FunctionResponse (call_name call)
                   (ErrorBody
                      (`"Error executing MCP tool " ++ mcpToolName mappedTool
                         ++ `": " ++ message e))]) w1
    | (Return _, w1) =>
        match Client_callTool env (mcpServerUrl mappedTool)
                (mcpToolName mappedTool) (args call) w1 with
        | (result, w2) =>
            executeFunctionCalls env tools rest
              (toolResponses
                 ++ [FunctionResponse (call_name call)
                       (ToolResult
                          match result with
                          | Return mcpToolResult => mcpToolResult
                          | Throw e =>
                              errorToolResponse (Date_now env w2)
                                (mcpToolName mappedTool) e
                          end)])
              (snd (Client_close env (mcpServerUrl mappedTool) w2))
        end
    end.
Proof.
  intros F U. cbn [executeFunctionCalls]. rewrite F.
  unfold new_GenericMcpClient. rewrite U.
  unfold executeMappedCall, connect, callMcpTool, isConnected, disconnect.
  cbn [connected serverUrl set_connected].
  destruct (Client_connect env (mcpServerUrl mappedTool) w) as [[[]|e] w1];
    cbn [connected serverUrl set_connected negb]; [|reflexivity].
  destruct (Client_callTool env (mcpServerUrl mappedTool)
              (mcpToolName mappedTool) (args call) w1) as [[r|e] w2];
    cbn [connected serverUrl set_connected negb];
    destruct (Client_close env (mcpServerUrl mappedTool) w2); reflexivity.
Qed.

(** X16. A call to a registered function whose server accepts the
    connection and answers the request: the server of the mapping is asked
    for the mapping's tool with the call's arguments untouched, the answer is
    handed back unchanged under the function name the model used, the
    connection is closed, and the round goes on. *)
Theorem mapped_call_round_trip :
  forall (tools : Table) (call : FunctionCall Json) mappedTool rest toolResponses
         w w1 mcpToolResult w2 closing w3,
    findDynamicallyMappedTool tools (call_name call) = Some mappedTool ->
    URL_new env (mcpServerUrl mappedTool) = Return tt ->
    Client_connect env (mcpServerUrl mappedTool) w = (Return tt, w1) ->
    Client_callTool env (mcpServerUrl mappedTool) (mcpToolName mappedTool)
      (args call) w1 = (Return mcpToolResult, w2) ->
    Client_close env (mcpServerUrl mappedTool) w2 = (closing, w3) ->
    executeFunctionCalls env tools (call :: rest) toolResponses w
    = executeFunctionCalls env tools rest
        (toolResponses
           ++ [FunctionResponse (call_name call) (ToolResult mcpToolResult)])
        w3.
Proof.
  intros tools call mappedTool rest acc w w1 r w2 closing w3 F U C T X.
  rewrite (@executeFunctionCalls_mapped _ _ _ _ _ _ F U), C, T, X. reflexivity.
Qed.

(** X17. The two ways a registered call can fail are reported differently,
    and neither stops the round. When the connection is refused the entry
    is [{error: "Error executing MCP tool <tool>: <message>"}] and nothing
    is closed. When the request fails on an open connection the entry is
    the error-shaped tool result of [callMcpTool], reported as a result,
    and the connection is closed. *)
Theorem mapped_call_failures :
  forall (tools : Table) (call : FunctionCall Json) mappedTool rest toolResponses w,
    findDynamicallyMappedTool tools (call_name call) = Some mappedTool ->
    URL_new env (mcpServerUrl mappedTool) = Return tt ->
    (forall e w1,
        Client_connect env (mcpServerUrl mappedTool) w = (Throw e, w1) ->
        executeFunctionCalls env tools (call :: rest) toolResponses w
        = executeFunctionCalls env tools rest
            (toolResponses
               ++ [FunctionResponse (call_name call)
                     (ErrorBody
                        (`"Error executing MCP tool " ++ mcpToolName mappedTool
                           ++ `": " ++ message e))])
            w1)
    /\ (forall w1 e w2 closing w3,
           Client_connect env (mcpServerUrl mappedTool) w = (Return tt, w1) ->
           Client_callTool env (mcpServerUrl mappedTool) (mcpToolName mappedTool)
             (args call) w1 = (Throw e, w2) ->
           Client_close env (mcpServerUrl mappedTool) w2 = (closing, w3) ->
           executeFunctionCalls env tools (call :: rest) toolResponses w
           = executeFunctionCalls env tools rest
               (toolResponses
                  ++ [FunctionResponse (call_name call)
                        (ToolResult
                           {| toolCallId :=
                                Some (`"error-" ++ Js.of_N (Date_now env w2));
                              isError := Some true;
                              content :=
                                [TextContent
                                   (`"Error calling MCP tool "
                                      ++ mcpToolName mappedTool ++ `": "
                                      ++ message e)] |})])
               w3).
Proof.
  intros tools call mappedTool rest acc w F U. split.
  - intros e w1 C. rewrite (@executeFunctionCalls_mapped _ _ _ _ _ _ F U), C.
    reflexivity.
  - intros w1 e w2 closing w3 C T X.
    rewrite (@executeFunctionCalls_mapped _ _ _ _ _ _ F U), C, T, X. reflexivity.
Qed.

(** X15. On a table a session can hold, a round never raises and answers
    every requested call: it returns the entries it was given followed by
    exactly one function response per call, in request order, each under the
    name of its call. *)
Theorem round_answers_every_call :
  forall tools,
    table_reachable String_of env tools ->
    forall (calls : list (FunctionCall Json)) toolResponses w,
    exists parts w',
      executeFunctionCalls env tools calls toolResponses w
      = (Return (toolResponses ++ parts), w')
      /\ Forall2 (fun call part =>
                    exists body, part = FunctionResponse (call_name call) body)
           calls parts.
Proof.
  intros tools R.
  pose proof (table_reachable_urls R) as U. rewrite Forall_forall in U.
  induction calls as [|call rest IH]; intros acc w.
  - exists [], w. simpl. rewrite app_nil_r. split; [reflexivity | constructor].
  - destruct (findDynamicallyMappedTool tools (call_name call))
      as [mappedTool|] eqn:F.
    + assert (M : In mappedTool tools) by (apply find_some in F; tauto).
      rewrite (@executeFunctionCalls_mapped _ _ _ _ _ _ F (U _ M)).
      destruct (Client_connect env (mcpServerUrl mappedTool) w) as [[[]|e] w1].
      * destruct (Client_callTool env (mcpServerUrl mappedTool)
                    (mcpToolName mappedTool) (args call) w1) as [result w2].
        destruct (IH (acc ++ [FunctionResponse (call_name call)
                                (ToolResult
                                   match result with
                                   | Return mcpToolResult => mcpToolResult
                                   | Throw e =>
                                       errorToolResponse (Date_now env w2)
                                         (mcpToolName mappedTool) e
                                   end)])
                    (snd (Client_close env (mcpServerUrl mappedTool) w2)))
          as (parts & w' & E & P).
        rewrite E, <- app_assoc. do 2 eexists. split; [reflexivity|].
        constructor; [eauto | exact P].
      * destruct (IH (acc ++ [FunctionResponse (call_name call)
                                (ErrorBody
                                   (`"Error executing MCP tool "
                                      ++ mcpToolName mappedTool ++ `": "
                                      ++ message e))]) w1)
          as (parts & w' & E & P).
        rewrite E, <- app_assoc. do 2 eexists. split; [reflexivity|].
        constructor; [eauto | exact P].
    + cbn [executeFunctionCalls]. rewrite F.
      destruct (IH (acc ++ [notMappedResponse call]) w) as (parts & w' & E & P).
      rewrite E, <- app_assoc. do 2 eexists. split; [reflexivity|].
      constructor; [unfold notMappedResponse; eauto | exact P].
Qed.

End RoundFacts.

Lemma turn_without_function_calls_witness :
  toolCallingLoop answeringEnv 1 sampleTable 0 (TextMessage `"hi") []
  = Some (Return `"hello", [ReqSendMessage]).
Proof.
  exact (proj1 (proj1 (turn_without_function_calls answeringEnv sampleTable 0
                         (TextMessage `"hi") [])
                  {| functionCalls := Some []; text := Some `"hello" |}
                  [ReqSendMessage] eq_refl (or_intror eq_refl))).
Defined.

Lemma mapped_call_round_trip_witness :
  executeFunctionCalls sampleEnv sampleTable
    [ {| call_name := `"my_server_forecast"; args := JsonString `"Oslo" |} ] [] []
  = (Return [FunctionResponse `"my_server_forecast" (ToolResult sunny)],
     [ReqConnect `"http://localhost:8080/mcp";
      ReqCallTool `"http://localhost:8080/mcp" `"forecast";
      ReqClose `"http://localhost:8080/mcp"]).
Proof.
  destruct (findDynamicallyMappedTool sampleTable `"my_server_forecast")
    as [mappedTool|] eqn:F; [|discriminate].
  assert (M : mappedTool = hd mappedTool sampleTable)
    by (vm_compute in F; injection F as <-; reflexivity).
  rewrite (@mapped_call_round_trip _ _ sampleEnv sampleTable
             {| call_name := `"my_server_forecast"; args := JsonString `"Oslo" |}
             mappedTool [] [] []
             [ReqConnect `"http://localhost:8080/mcp"]
             sunny
             [ReqConnect `"http://localhost:8080/mcp";
              ReqCallTool `"http://localhost:8080/mcp" `"forecast"]
             (Return tt)
             [ReqConnect `"http://localhost:8080/mcp";
              ReqCallTool `"http://localhost:8080/mcp" `"forecast";
              ReqClose `"http://localhost:8080/mcp"]
             F);
    try (rewrite M; reflexivity).
  reflexivity.
Defined.

Lemma mapped_call_failures_witness :
  executeFunctionCalls sampleEnv failingTable
    [ {| call_name := `"my_server_boom"; args := JsonNull |};
      {| call_name := `"down_boom"; args := JsonNull |} ] [] []
  = (Return
       [FunctionResponse `"my_server_boom"
          (ToolResult
             {| toolCallId := Some `"error-1700000000002";
                isError := Some true;
                content :=
                  [TextContent `"Error calling MCP tool boom: Unknown tool"] |});
        FunctionResponse `"down_boom"
          (ErrorBody `"Error executing MCP tool boom: connect ECONNREFUSED")],
     [ReqConnect `"http://localhost:8080/mcp";
      ReqCallTool `"http://localhost:8080/mcp" `"boom";
      ReqClose `"http://localhost:8080/mcp";
      ReqConnect `"http://down.example/mcp"]).
Proof.
  destruct (findDynamicallyMappedTool failingTable `"my_server_boom")
    as [first|] eqn:F1; [|discriminate].
  destruct (findDynamicallyMappedTool failingTable `"down_boom")
    as [second|] eqn:F2; [|discriminate].
  assert (M1 : first = nth 0 failingTable first)
    by (vm_compute in F1; injection F1 as <-; reflexivity).
  assert (M2 : second = nth 1 failingTable second)
    by (vm_compute in F2; injection F2 as <-; reflexivity).
  assert (U1 : URL_new sampleEnv (mcpServerUrl first) = Return tt)
    by (rewrite M1; reflexivity).
  assert (U2 : URL_new sampleEnv (mcpServerUrl second) = Return tt)
    by (rewrite M2; reflexivity).
  assert (C1 : Client_connect sampleEnv (mcpServerUrl first) []
               = (Return tt, [ReqConnect `"http://localhost:8080/mcp"]))
    by (rewrite M1; reflexivity).
  assert (T1 : Client_callTool sampleEnv (mcpServerUrl first) (mcpToolName first)
                 JsonNull [ReqConnect `"http://localhost:8080/mcp"]
               = (Throw {| message := `"Unknown tool" |},
                  [ReqConnect `"http://localhost:8080/mcp";
                   ReqCallTool `"http://localhost:8080/mcp" `"boom"]))
    by (rewrite M1; reflexivity).
  assert (X1 : Client_close sampleEnv (mcpServerUrl first)
                 [ReqConnect `"http://localhost:8080/mcp";
                  ReqCallTool `"http://localhost:8080/mcp" `"boom"]
               = (Return tt,
                  [ReqConnect `"http://localhost:8080/mcp";
                   ReqCallTool `"http://localhost:8080/mcp" `"boom";
                   ReqClose `"http://localhost:8080/mcp"]))
    by (rewrite M1; reflexivity).
  assert (C2 : Client_connect sampleEnv (mcpServerUrl second)
                 [ReqConnect `"http://localhost:8080/mcp";
                  ReqCallTool `"http://localhost:8080/mcp" `"boom";
                  ReqClose `"http://localhost:8080/mcp"]
               = (Throw {| message := `"connect ECONNREFUSED" |},
                  [ReqConnect `"http://localhost:8080/mcp";
                   ReqCallTool `"http://localhost:8080/mcp" `"boom";
                   ReqClose `"http://localhost:8080/mcp";
                   ReqConnect `"http://down.example/mcp"]))
    by (rewrite M2; reflexivity).
  rewrite (proj2 (@mapped_call_failures _ _ sampleEnv failingTable
                    {| call_name := `"my_server_boom"; args := JsonNull |}
                    first _ [] [] F1 U1) _ _ _ _ _ C1 T1 X1).
  rewrite (proj1 (@mapped_call_failures _ _ sampleEnv failingTable
                    {| call_name := `"down_boom"; args := JsonNull |}
                    second [] _ _ F2 U2) _ _ C2).
  rewrite M1, M2. reflexivity.
Defined.

Lemma round_answers_every_call_witness :
  table_reachable JsonLit_String sampleEnv sampleTable
  /\ exists parts w',
      executeFunctionCalls sampleEnv sampleTable sampleCalls [] []
      = (Return parts, w')
      /\ length parts = 2.
Proof.
  split; [exact sampleTable_reachable|].
  destruct (round_answers_every_call sampleTable_reachable sampleCalls [] [])
    as (parts & w' & E & P).
  exists parts, w'. split; [exact E|].
  apply Forall2_length in P. rewrite <- P. reflexivity.
Defined.

(** ** Counting model calls and connections *)

Section TallyFacts.
Variable Json : Type.
Variable String_of : Json -> jsstring.
Variable World : Type.
Variable env : Environment Json World.

Local Arguments mapMcpTools : simpl never.
Local Arguments Js.lit : simpl never.

Let counted := tallying env.

(** A round on the counting environment is the round on the plain one; it
    makes no model call, and closes each connection it opens. *)
Lemma executeFunctionCalls_tally (tools : Table) :
  forall (calls : list (FunctionCall Json)) toolResponses w t,
  exists t',
    executeFunctionCalls counted tools calls toolResponses (w, t)
    = (fst (executeFunctionCalls env tools calls toolResponses w),
       (snd (executeFunctionCalls env tools calls toolResponses w), t'))
    /\ sent t' = sent t
    /\ opened t' + closed t = opened t + closed t'
    /\ opened t' <= opened t + length calls.
Proof.
  induction calls as [|call rest IH]; intros acc w t.
  - exists t. cbn [executeFunctionCalls discoverServers fst snd length]. repeat split; lia.
  - cbn [executeFunctionCalls length].
    destruct (findDynamicallyMappedTool tools (call_name call))
      as [mappedTool|] eqn:F.
    + unfold new_GenericMcpClient. cbn [URL_new counted tallying].
      destruct (URL_new env (mcpServerUrl mappedTool)) as [[]|e].
      * unfold executeMappedCall, connect, callMcpTool, isConnected, disconnect.
        cbn [connected serverUrl set_connected Client_connect Client_callTool
               Client_close Date_now counted tallying fst snd negb].
        destruct (Client_connect env (mcpServerUrl mappedTool) w)
          as [[[]|e] w1]; cbn [connected serverUrl set_connected negb fst snd].
        -- destruct (Client_callTool env (mcpServerUrl mappedTool)
                       (mcpToolName mappedTool) (args call) w1)
             as [[r|e] w2]; cbn [connected serverUrl set_connected negb fst snd];
             destruct (Client_close env (mcpServerUrl mappedTool) w2)
               as [closing w3]; cbn [fst snd];
             match goal with
             | |- context [executeFunctionCalls counted tools rest ?a (w3, ?u)] =>
                 destruct (IH a w3 u) as (t' & E & S1 & B & L)
             end;
             exists t'; rewrite E; cbn [sent opened closed tally_sent tally_opened tally_closed noTally length] in *; repeat split; lia.
        -- match goal with
           | |- context [executeFunctionCalls counted tools rest ?a (w1, ?u)] =>
               destruct (IH a w1 u) as (t' & E & S1 & B & L)
           end.
           exists t'. rewrite E. repeat split; lia.
      * exists t. cbn [executeFunctionCalls discoverServers fst snd length]. repeat split; lia.
    + destruct (IH (acc ++ [notMappedResponse call]) w t) as (t' & E & S1 & B & L).
      exists t'. rewrite E. repeat split; lia.
Qed.

Lemma toolCallingLoop_tally (tools : Table) :
  forall fuel attempt msg w t,
    match toolCallingLoop env fuel tools attempt msg w with
    | None => toolCallingLoop counted fuel tools attempt msg (w, t) = None
    | Some (o, w') =>
        exists t',
          toolCallingLoop counted fuel tools attempt msg (w, t)
          = Some (o, (w', t'))
          /\ sent t' <= sent t + (maxAttempts - attempt)
          /\ opened t' + closed t = opened t + closed t'
    end.
Proof.
  induction fuel as [|fuel IH]; intros attempt msg w t; [reflexivity|].
  cbn [toolCallingLoop].
  destruct (attempt <? maxAttempts) eqn:A.
  - apply Nat.ltb_lt in A.
    cbn [ChatSession_sendMessage counted tallying fst snd].
    destruct (ChatSession_sendMessage env msg w) as [[[response|]|e] w1].
    + destruct (functionCalls response) as [[|c cs]|].
      * destruct (text response); eexists; (split; [reflexivity|]);
          cbn [sent opened closed tally_sent tally_opened tally_closed noTally length]; split; lia.
      * destruct (executeFunctionCalls_tally tools (c :: cs) [] w1 (tally_sent t))
          as (t1 & E & S1 & B1 & _).
        rewrite E.
        destruct (executeFunctionCalls env tools (c :: cs) [] w1)
          as [[parts|e] w2]; cbn [fst snd].
        -- specialize (IH (attempt + 1) (PartsMessage parts) w2 t1).
           destruct (toolCallingLoop env fuel tools (attempt + 1)
                       (PartsMessage parts) w2) as [[o w']|]; [|exact IH].
           destruct IH as (t' & E' & S' & B').
           exists t'. split; [exact E'|]. cbn [sent opened closed tally_sent tally_opened tally_closed noTally length] in *. split; lia.
        -- eexists. split; [reflexivity|]. cbn [sent opened closed tally_sent tally_opened tally_closed noTally length] in *. split; lia.
      * destruct (text response); eexists; (split; [reflexivity|]);
          cbn [sent opened closed tally_sent tally_opened tally_closed noTally length]; split; lia.
    + eexists. split; [reflexivity|]. cbn [sent opened closed tally_sent tally_opened tally_closed noTally length]. split; lia.
    + eexists. split; [reflexivity|]. cbn [sent opened closed tally_sent tally_opened tally_closed noTally length]. split; lia.
  - exists t. split; [reflexivity|]. split; lia.
Qed.

(** X18. In one user turn the model is called at most [maxAttempts] times,
    whatever it answers and whatever the servers do: the turn run on the
    counting environment ends as it does on the plain one, with at most
    [maxAttempts] model calls counted. *)
Theorem turn_calls_model_at_most_maxAttempts :
  forall (tools : Table) fuel msg w o w',
    toolCallingLoop env fuel tools 0 msg w = Some (o, w') ->
    exists t',
      toolCallingLoop (tallying env) fuel tools 0 msg (w, noTally)
      = Some (o, (w', t'))
      /\ sent t' <= maxAttempts.
Proof.
  intros tools fuel msg w o w' H.
  pose proof (toolCallingLoop_tally tools fuel 0 msg w noTally) as T.
  rewrite H in T. destruct T as (t' & E & S1 & _).
  exists t'. split; [exact E|]. cbn [sent opened closed tally_sent tally_opened tally_closed noTally length] in S1. lia.
Qed.

(** X20. Every connection opened during a user turn is closed before the
    turn ends, however the turn ends: the counts of opened connections and
    of close requests agree, also when a round raises or the rounds run
    out. Within a round at most one connection is opened per requested
    call. *)
Theorem turn_closes_every_connection :
  forall (tools : Table),
    (forall fuel msg w o w',
        toolCallingLoop env fuel tools 0 msg w = Some (o, w') ->
        exists t',
          toolCallingLoop (tallying env) fuel tools 0 msg (w, noTally)
          = Some (o, (w', t'))
          /\ opened t' = closed t')
    /\ (forall (calls : list (FunctionCall Json)) toolResponses w,
           exists t',
             executeFunctionCalls (tallying env) tools calls toolResponses
               (w, noTally)
             = (fst (executeFunctionCalls env tools calls toolResponses w),
                (snd (executeFunctionCalls env tools calls toolResponses w), t'))
             /\ opened t' = closed t'
             /\ opened t' <= length calls).
Proof.
  intros tools. split.
  - intros fuel msg w o w' H.
    pose proof (toolCallingLoop_tally tools fuel 0 msg w noTally) as T.
    rewrite H in T. destruct T as (t' & E & _ & B).
    exists t'. split; [exact E|]. cbn [sent opened closed tally_sent tally_opened tally_closed noTally length] in B. lia.
  - intros calls acc w.
    destruct (executeFunctionCalls_tally tools calls acc w noTally)
      as (t' & E & _ & B & L).
    exists t'. split; [exact E|]. cbn [sent opened closed tally_sent tally_opened tally_closed noTally length] in *. split; lia.
Qed.

Lemma discoverServers_tally (servers : list McpServerConfig) :
  forall table w t,
  exists t',
    discoverServers String_of counted servers table (w, t)
    = (fst (fst (discoverServers String_of env servers table w)),
       snd (fst (discoverServers String_of env servers table w)),
       (snd (discoverServers String_of env servers table w), t'))
    /\ sent t' = sent t
    /\ opened t' + closed t = opened t + closed t'
    /\ opened t' <= opened t + length servers.
Proof.
  induction servers as [|serverConfig rest IH]; intros table w t.
  - exists t. cbn [executeFunctionCalls discoverServers fst snd length]. repeat split; lia.
  - cbn [discoverServers length].
    unfold new_GenericMcpClient. cbn [URL_new counted tallying].
    destruct (URL_new env (server_url serverConfig)) as [[]|e].
    + unfold discoverOnServer, connect, listMcpTools, isConnected, disconnect.
      cbn [connected serverUrl set_connected Client_connect Client_listTools
             Client_close counted tallying fst snd negb].
      destruct (Client_connect env (server_url serverConfig) w)
        as [[[]|e] w1]; cbn [connected serverUrl set_connected negb fst snd].
      * destruct (Client_listTools env (server_url serverConfig) w1)
          as [[response|e] w2]; cbn [fst snd];
          [destruct (tools response) as [[|tool listed]|]|];
          cbn [connected serverUrl set_connected negb fst snd];
          destruct (Client_close env (server_url serverConfig) w2)
            as [closing w3]; cbn [fst snd];
          match goal with
          | |- context [discoverServers String_of counted rest ?tb (w3, ?u)] =>
              destruct (IH tb w3 u) as (t' & E & S1 & B & L)
          end;
          exists t'; rewrite E; cbn [sent opened closed tally_sent tally_opened tally_closed noTally length] in *; repeat split; lia.
      * destruct (IH table w1 t) as (t' & E & S1 & B & L).
        exists t'. rewrite E. repeat split; lia.
    + exists t. cbn [executeFunctionCalls discoverServers fst snd length]. repeat split; lia.
Qed.

(** X19. Discovery closes every connection it opens, whatever happens on
    the way, makes no model call, and opens at most one connection per
    configured server: run on the counting environment it ends as on the
    plain one, with as many close requests as opened connections. *)
Theorem discovery_closes_every_connection :
  forall configuredServers previous w,
  exists t',
    discoverAndMapAllMcpTools String_of (tallying env) configuredServers previous
      (w, noTally)
    = (fst (fst (discoverAndMapAllMcpTools String_of env configuredServers previous w)),
       snd (fst (discoverAndMapAllMcpTools String_of env configuredServers previous w)),
       (snd (discoverAndMapAllMcpTools String_of env configuredServers previous w),
        t'))
    /\ opened t' = closed t'
    /\ opened t' <= length configuredServers
    /\ sent t' = 0.
Proof.
  intros servers previous w. unfold discoverAndMapAllMcpTools.
  destruct (discoverServers_tally servers [] w noTally) as (t' & E & S1 & B & L).
  exists t'. split; [exact E|]. cbn [sent opened closed tally_sent tally_opened tally_closed noTally length] in *. repeat split; lia.
Qed.

End TallyFacts.

Lemma turn_calls_model_at_most_maxAttempts_witness :
  exists w' t',
    toolCallingLoop sampleEnv 6 sampleTable 0 (TextMessage `"hi") []
    = Some (Return exhaustedMessage, w')
    /\ toolCallingLoop (tallying sampleEnv) 6 sampleTable 0 (TextMessage `"hi")
         ([], noTally)
       = Some (Return exhaustedMessage, (w', t'))
    /\ sent t' <= 5.
Proof.
  destruct (toolCallingLoop sampleEnv 6 sampleTable 0 (TextMessage `"hi") [])
    as [[o w']|] eqn:H; [|discriminate].
  assert (O : o = Return exhaustedMessage)
    by (vm_compute in H; injection H as <- _; reflexivity).
  subst o.
  destruct (@turn_calls_model_at_most_maxAttempts _ _ sampleEnv sampleTable 6
              (TextMessage `"hi") [] _ _ H) as (t' & E & S1).
  exists w', t'. split; [reflexivity|]. split; [exact E | exact S1].
Defined.

Lemma turn_closes_every_connection_witness :
  exists w' t',
    toolCallingLoop (tallying sampleEnv) 6 sampleTable 0 (TextMessage `"hi")
      ([], noTally)
    = Some (Return exhaustedMessage, (w', t'))
    /\ opened t' = closed t'.
Proof.
  destruct (toolCallingLoop sampleEnv 6 sampleTable 0 (TextMessage `"hi") [])
    as [[o w']|] eqn:H; [|discriminate].
  assert (O : o = Return exhaustedMessage)
    by (vm_compute in H; injection H as <- _; reflexivity).
  subst o.
  destruct (proj1 (@turn_closes_every_connection _ _ sampleEnv sampleTable)
              6 (TextMessage `"hi") [] _ _ H) as (t' & E & B).
  exists w', t'. split; [exact E | exact B].
Defined.

(** ** The server list *)

Section ConfigFacts.
Variable URL_new : jsstring -> Outcome unit.
Variable Conf_save : ConfigStore -> Outcome unit.

Let sound := store_sound URL_new.
Let run := runCommand URL_new Conf_save.

Lemma has_server_iff name servers :
  has_server name servers = true <-> In name (map server_name servers).
Proof.
  unfold has_server. rewrite existsb_exists, in_map_iff.
  split; intros (s & A & B).
  - exists s. apply Js_eqb_eq in B. auto.
  - exists s. split; [exact B|]. apply Js_eqb_eq. exact A.
Qed.

Lemma has_server_false name servers :
  has_server name servers = false <-> ~ In name (map server_name servers).
Proof.
  rewrite <- has_server_iff. destruct (has_server name servers); split; congruence.
Qed.

Lemma config_set_cases updated current :
  config_set Conf_save updated current = (Return tt, updated)
  \/ exists e, config_set Conf_save updated current = (Throw e, current).
Proof.
  unfold config_set. destruct (Conf_save updated) as [[]|e]; eauto.
Qed.

Lemma removed_names name servers :
  map server_name (filter (fun s => negb (Js.eqb (server_name s) name)) servers)
  = filter (fun n => negb (Js.eqb n name)) (map server_name servers).
Proof.
  induction servers as [|s servers IH]; simpl; [reflexivity|].
  destruct (Js.eqb (server_name s) name); simpl; rewrite IH; reflexivity.
Qed.

Lemma NoDup_filter (A : Type) (f : A -> bool) (l : list A) :
  NoDup l -> NoDup (filter f l).
Proof.
  induction 1 as [|a l N _ IH]; simpl; [constructor|].
  destruct (f a); [|exact IH]. constructor; [|exact IH].
  rewrite filter_In. tauto.
Qed.

Lemma setDefaultServer_cases name config :
  setDefaultServer Conf_save name config = (Return tt, config)
  \/ (In name (map server_name (store_servers config))
      /\ setDefaultServer Conf_save name config
         = (Return tt, {| store_servers := store_servers config;
                          store_defaultServerName := Some name |}))
  \/ exists e, setDefaultServer Conf_save name config = (Throw e, config).
Proof.
  unfold setDefaultServer.
  destruct (has_server name (store_servers config)) eqn:H; simpl; [|auto].
  apply has_server_iff in H.
  destruct (config_set_cases
              {| store_servers := store_servers config;
                 store_defaultServerName := Some name |} config) as [E|[e E]];
    rewrite E; eauto.
Qed.

Lemma store_stays_sound_helper :
  sound emptyStore
  /\ forall (c : ConfigCommand) (config : ConfigStore),
      sound config -> sound (snd (run c config)).
Proof.
  split; [split; constructor|].
  intros c config [D U]. unfold run, runCommand. destruct c as [name url|name|name].
  - unfold addServer. destruct (has_server name (store_servers config)) eqn:H;
      [split; assumption|].
    apply has_server_false in H.
    destruct (URL_new url) as [[]|e] eqn:P; [|split; assumption].
    match goal with
    | |- context [config_set Conf_save ?u config] =>
        destruct (config_set_cases u config) as [E|[e E]]; rewrite E;
        [assert (S : sound u)|split; assumption]
    end.
    + split; simpl.
      * rewrite map_app. simpl. apply NoDup_app; [exact D | repeat constructor; auto|].
        intros x I [<-|[]]. contradiction.
      * apply Forall_app. split; [exact U|]. repeat constructor. exact P.
    + destruct (length _ =? 1); [|exact S].
      match goal with
      | |- context [setDefaultServer Conf_save name ?u] =>
          destruct (setDefaultServer_cases name u) as [E'|[[_ E']|[e E']]];
          rewrite E'; exact S
      end.
  - unfold removeServer. destruct (has_server name (store_servers config));
      [|split; assumption]. simpl.
    match goal with
    | |- context [config_set Conf_save ?u config] =>
        destruct (config_set_cases u config) as [E|[e E]]; rewrite E;
        [assert (S : sound u)|split; assumption]
    end.
    + split; simpl.
      * rewrite removed_names. apply NoDup_filter. exact D.
      * apply Forall_forall. intros s I. apply filter_In in I.
        rewrite Forall_forall in U. apply U. tauto.
    + cbn [store_defaultServerName store_servers].
      destruct (match store_defaultServerName config with
                | Some d => Js.eqb d name
                | None => false
                end); [|exact S].
      match goal with
      | |- context [config_set Conf_save ?u ?v] =>
          destruct (config_set_cases u v) as [E'|[e E']]; rewrite E'; exact S
      end.
  - destruct (setDefaultServer_cases name config) as [E|[[_ E]|[e E]]];
      rewrite E; split; assumption.
Qed.

(** X21. Whatever commands are run and whichever writes fail, the stored
    server names stay pairwise distinct, every stored URL is one that
    [new URL] accepted, and no [default] flag is stored. *)
Theorem store_stays_sound :
  sound emptyStore
  /\ (forall (c : ConfigCommand) (config : ConfigStore),
         sound config -> sound (snd (run c config)))
  /\ (forall (commands : list ConfigCommand),
         sound (runCommands URL_new Conf_save commands emptyStore)).
Proof.
  destruct store_stays_sound_helper as [I P].
  split; [exact I|]. split; [exact P|].
  intros commands. unfold runCommands.
  generalize emptyStore I.
  induction commands as [|c commands IH]; intros config S; [exact S|].
  simpl. apply IH. apply P. exact S.
Qed.

(** X22. As long as no write fails the default follows the list: a command
    that returns normally leaves the default unset exactly when no server is
    left, and otherwise naming a stored server. *)
Theorem default_follows_server_list :
  default_tracked emptyStore
  /\ forall (c : ConfigCommand) (config config' : ConfigStore),
      default_tracked config ->
      run c config = (Return tt, config') ->
      default_tracked config'.
Proof.
  split; [reflexivity|].
  intros c config config' T. unfold run, runCommand.
  destruct c as [name url|name|name].
  - unfold addServer. destruct (has_server name (store_servers config)) eqn:H;
      [intros [= <-]; exact T|].
    destruct (URL_new url) as [[]|e]; [|intros [= <-]; exact T].
    match goal with
    | |- context [config_set Conf_save ?u config] =>
        destruct (config_set_cases u config) as [E|[e E]]; rewrite E;
        [|discriminate]
    end.
    rewrite length_app, Nat.add_comm. cbn [length Nat.add].
    destruct (store_servers config) as [|s0 servers] eqn:SV.
    + cbn [length Nat.eqb app].
      unfold setDefaultServer, has_server.
      cbn [store_servers existsb server_name]. rewrite Js_eqb_refl.
      cbn [orb negb].
      match goal with
      | |- context [config_set Conf_save ?u ?v] =>
          destruct (config_set_cases u v) as [E'|[e E']]; rewrite E';
          [|discriminate]
      end.
      intros [= <-]. left. reflexivity.
    + cbn [length Nat.eqb]. intros [= <-].
      unfold default_tracked in *. cbn [store_defaultServerName store_servers].
      rewrite SV in T.
      destruct (store_defaultServerName config) as [d|]; [|discriminate].
      rewrite app_comm_cons, map_app. apply in_or_app. left. exact T.
  - unfold removeServer. destruct (has_server name (store_servers config)) eqn:H;
      [|intros [= <-]; exact T]. simpl.
    match goal with
    | |- context [config_set Conf_save ?u config] =>
        destruct (config_set_cases u config) as [E|[e E]]; rewrite E;
        [|discriminate]
    end.
    cbn [store_defaultServerName store_servers].
    unfold default_tracked in T.
    destruct (store_defaultServerName config) as [d|] eqn:DN.
    + destruct (Js.eqb d name) eqn:DE.
      * match goal with
        | |- context [config_set Conf_save ?u ?v] =>
            destruct (config_set_cases u v) as [E'|[e E']]; rewrite E';
            [|discriminate]
        end.
        intros [= <-]. unfold default_tracked.
        cbn [store_defaultServerName store_servers].
        destruct (filter _ (store_servers config)) as [|s ss];
          [reflexivity | left; reflexivity].
      * intros [= <-]. unfold default_tracked.
        cbn [store_defaultServerName store_servers].
        rewrite removed_names. apply filter_In. split; [exact T|].
        rewrite DE. reflexivity.
    + apply has_server_iff in H. rewrite T in H. destruct H.
  - destruct (setDefaultServer_cases name config) as [E|[[I E]|[e E]]];
      rewrite E; [intros [= <-]; exact T | | discriminate].
    intros [= <-]. exact I.
Qed.




Lemma find_listed name servers d :
  NoDup (map server_name servers) ->
  In name (map server_name servers) ->
  exists s,
    find (fun s => Js.eqb (server_name s) name)
      (map (fun s =>
              {| server_name := server_name s;
                 server_url := server_url s;
                 server_default :=
                   Some (match d with
                         | Some d => Js.eqb (server_name s) d
                         | None => false
                         end) |}) servers)
    = Some {| server_name := name;
              server_url := server_url s;
              server_default :=
                Some (match d with
                      | Some d => Js.eqb name d
                      | None => false
                      end) |}
    /\ In s servers /\ server_name s = name.
Proof.
  intros _. induction servers as [|s servers IH]; simpl; [intros []|].
  destruct (Js.eqb (server_name s) name) eqn:E.
  - intros _. apply Js_eqb_eq in E. exists s. rewrite E. auto.
  - intros [I|I]; [apply Js_eqb_neq in E; contradiction|].
    destruct (IH I) as (s' & F & I' & N). exists s'. auto.
Qed.

(** X25. On a sound store whose default is tracked, listing flags as
    default exactly the servers named by the stored default, which is one
    server when the list is not empty; [getServer] finds every stored
    server, with its flag; and [getDefaultServer] returns the default server
    unless its name is the empty string, in which case it returns nothing. *)
Theorem listing_flags_the_default :
  forall config,
    sound config ->
    default_tracked config ->
    map server_name (listServers config) = map server_name (store_servers config)
    /\ map server_url (listServers config) = map server_url (store_servers config)
    /\ (forall s, In s (listServers config) ->
                  server_default s = Some true
                  <-> store_defaultServerName config = Some (server_name s))
    /\ (store_servers config <> [] ->
        length (filter (fun s => match server_default s with
                                 | Some true => true
                                 | _ => false
                                 end) (listServers config)) = 1)
    /\ (forall s, In s (store_servers config) ->
                  exists listed,
                    getServer (server_name s) config = Some listed
                    /\ server_name listed = server_name s
                    /\ server_url listed = server_url s)
    /\ (forall c d, store_defaultServerName config = Some (c :: d) ->
                    exists s,
                      getDefaultServer config = Some s
                      /\ server_name s = c :: d
                      /\ server_default s = Some true)
    /\ (store_defaultServerName config = Some [] ->
        getDefaultServer config = None).
Proof.
  intros config [D U] T. unfold listServers.
  split; [rewrite map_map; reflexivity|].
  split; [rewrite map_map; reflexivity|].
  split; [|split; [|split; [|split]]].
  - intros s I. apply in_map_iff in I. destruct I as (s0 & <- & _).
    cbn [server_default server_name].
    destruct (store_defaultServerName config) as [d|]; [|split; discriminate].
    destruct (Js.eqb (server_name s0) d) eqn:E.
    + apply Js_eqb_eq in E. subst d. split; intros _; reflexivity.
    + apply Js_eqb_neq in E. split; [discriminate|].
      intros [= X]. simpl in X. congruence.
  - intros N. unfold default_tracked in T.
    destruct (store_defaultServerName config) as [d|]; [|contradiction].
    clear N U. revert D T.
    induction (store_servers config) as [|s servers IH]; [intros _ []|].
    cbn [map filter server_default server_name]. intros D T.
    inversion D as [|? ? N1 D1]; subst.
    destruct (Js.eqb (server_name s) d) eqn:E.
    + apply Js_eqb_eq in E. subst d. cbn [length]. f_equal.
      assert (Z : forall l,
                 ~ In (server_name s) (map server_name l) ->
                 filter (fun s0 => match server_default s0 with
                                   | Some true => true
                                   | _ => false
                                   end)
                   (map (fun s0 =>
                           {| server_name := server_name s0;
                              server_url := server_url s0;
                              server_default :=
                                Some (Js.eqb (server_name s0) (server_name s)) |})
                      l) = []).
      { induction l as [|x l IHl]; [reflexivity|]. simpl. intros M.
        destruct (Js.eqb (server_name x) (server_name s)) eqn:X.
        - apply Js_eqb_eq in X. tauto.
        - apply IHl. tauto. }
      rewrite (Z servers N1). reflexivity.
    + apply IH; [exact D1|]. destruct T as [T|T]; [|exact T].
      apply Js_eqb_neq in E. contradiction.
  - intros s I.
    destruct (@find_listed (server_name s) (store_servers config)
                (store_defaultServerName config) D (in_map server_name _ _ I))
      as (s' & F & I' & N).
    assert (s' = s).
    { clear F U T. revert D I I' N.
      induction (store_servers config) as [|x l IHl]; [intros _ []|].
      simpl. intros D [<-|I] [<-|I'] N; try reflexivity.
      - inversion D; subst. exfalso. rewrite <- N in H1. apply H1.
        apply in_map. exact I'.
      - inversion D; subst. exfalso. rewrite N in H1. apply H1.
        apply in_map. exact I.
      - inversion D; subst. apply IHl; assumption. }
    subst s'. unfold getServer, listServers. rewrite F.
    eexists. split; [reflexivity|]. split; reflexivity.
  - intros c d E. unfold getDefaultServer, getServer, listServers. rewrite E.
    unfold default_tracked in T. rewrite E in T.
    destruct (@find_listed (c :: d) (store_servers config) (Some (c :: d)) D T)
      as (s' & F & _ & _).
    rewrite F. eexists. split; [reflexivity|]. cbn [server_name server_default].
    split; [reflexivity|]. rewrite Js_eqb_refl. reflexivity.
  - intros E. unfold getDefaultServer. rewrite E. reflexivity.
Qed.

End ConfigFacts.

Lemma store_stays_sound_witness :
  store_sound (URL_new sampleEnv) twoServerStore
  /\ store_sound (URL_new sampleEnv)
       (snd (runCommand (URL_new sampleEnv) savesOneServer
               (CmdAdd `"empty" `"http://empty.example/mcp") twoServerStore)).
Proof.
  assert (S : store_sound (URL_new sampleEnv) twoServerStore).
  { split; vm_compute; repeat constructor; simpl; intuition discriminate. }
  split; [exact S|].
  exact (proj1 (proj2 (store_stays_sound (URL_new sampleEnv) savesOneServer))
           (CmdAdd `"empty" `"http://empty.example/mcp") twoServerStore S).
Defined.

Lemma default_follows_server_list_witness :
  default_tracked twoServerStore
  /\ runCommand (URL_new sampleEnv) alwaysSaves (CmdRemove `"my server")
       twoServerStore
     = (Return tt,
        {| store_servers :=
             [{| server_name := `"flaky";
                 server_url := `"http://flaky.example/mcp";
                 server_default := None |}];
           store_defaultServerName := Some `"flaky" |})
  /\ default_tracked
       {| store_servers :=
            [{| server_name := `"flaky";
                server_url := `"http://flaky.example/mcp";
                server_default := None |}];
          store_defaultServerName := Some `"flaky" |}.
Proof.
  assert (T : default_tracked twoServerStore) by (left; reflexivity).
  assert (R : runCommand (URL_new sampleEnv) alwaysSaves (CmdRemove `"my server")
                twoServerStore
              = (Return tt,
                 {| store_servers :=
                      [{| server_name := `"flaky";
                          server_url := `"http://flaky.example/mcp";
                          server_default := None |}];
                    store_defaultServerName := Some `"flaky" |}))
    by reflexivity.
  split; [exact T|]. split; [exact R|].
  exact (proj2 (default_follows_server_list (URL_new sampleEnv) alwaysSaves)
           _ _ _ T R).
Defined.



Lemma listing_flags_the_default_witness :
  store_sound (URL_new sampleEnv) twoServerStore
  /\ default_tracked twoServerStore
  /\ map server_default (listServers twoServerStore) = [Some true; Some false]
  /\ exists s,
      getDefaultServer twoServerStore = Some s
      /\ server_name s = `"my server".
Proof.
  assert (S : store_sound (URL_new sampleEnv) twoServerStore).
  { split; vm_compute; repeat constructor; simpl; intuition discriminate. }
  assert (T : default_tracked twoServerStore) by (left; reflexivity).
  split; [exact S|]. split; [exact T|]. split; [reflexivity|].
  destruct (listing_flags_the_default S T) as (_ & _ & _ & _ & _ & G & _).
  destruct (G _ _ eq_refl) as (s & E & N & _).
  exists s. split; [exact E | exact N].
Defined.

(** ** From the server list to discovery *)

Section ChatStartFacts.
Variable Json : Type.
Variable String_of : Json -> jsstring.
Variable World : Type.
Variable env : Environment Json World.
Variable Conf_save : ConfigStore -> Outcome unit.

Lemma runCommands_sound (commands : list ConfigCommand) :
  forall config,
    store_sound (URL_new env) config ->
    store_sound (URL_new env) (runCommands (URL_new env) Conf_save commands config).
Proof.
  unfold runCommands.
  induction commands as [|c commands IH]; intros config S; [exact S|].
  simpl. apply IH.
  destruct (store_stays_sound_helper (URL_new env) Conf_save) as [_ P].
  apply P. exact S.
Qed.

(** X26. Whatever [servers] sub-commands were run before, and whichever of
    their writes failed, the discovery that [chat] starts with over the
    listed servers does not raise: every listed URL is one that parses. *)
Theorem discovery_over_configured_servers_returns :
  forall (commands : list ConfigCommand) previous w,
  exists table w',
    discoverAndMapAllMcpTools String_of env
      (listServers (runCommands (URL_new env) Conf_save commands emptyStore))
      previous w
    = (Return tt, table, w').
Proof.
  intros commands previous w.
  apply discoverServers_returns.
  destruct (runCommands_sound commands (config := emptyStore)) as [_ U];
    [split; constructor|].
  unfold listServers. apply Forall_forall. intros s I.
  apply in_map_iff in I. destruct I as (s0 & <- & I0).
  rewrite Forall_forall in U. apply (U s0 I0).
Qed.

End ChatStartFacts.

(** ** User input *)

Lemma strip_prefix_sound p : forall s r,
  UserInputParser.strip_prefix p s = Some r -> s = p ++ r.
Proof.
  induction p as [|x p IH]; intros [|y s] r; simpl; try congruence.
  destruct (N.eqb x y) eqn:E; [|discriminate].
  apply N.eqb_eq in E. subst y. intros H. rewrite (IH _ _ H). reflexivity.
Qed.

Lemma strip_prefix_complete p r : UserInputParser.strip_prefix p (p ++ r) = Some r.
Proof.
  induction p as [|x p IH]; simpl; [destruct r; reflexivity|].
  rewrite N.eqb_refl. exact IH.
Qed.

Lemma span_before_paren_sound s : forall run tail,
  UserInputParser.span_before_paren s = (run, tail) ->
  s = run ++ tail /\ ~ In 41%N run
  /\ (tail = [] \/ exists after, tail = 41%N :: after).
Proof.
  induction s as [|c s IH]; intros run tail; simpl.
  - intros [= <- <-]. auto.
  - destruct (N.eqb c 41) eqn:E.
    + apply N.eqb_eq in E. subst c. intros [= <- <-].
      split; [reflexivity|]. split; [intros []|]. right. eexists; reflexivity.
    + destruct (UserInputParser.span_before_paren s) as [run' tail'].
      intros [= <- <-]. destruct (IH _ _ eq_refl) as (-> & N & T).
      apply N.eqb_neq in E. split; [reflexivity|]. split; [|exact T].
      intros [X|X]; [congruence | contradiction].
Qed.

Lemma span_before_paren_complete run after :
  ~ In 41%N run ->
  UserInputParser.span_before_paren (run ++ 41%N :: after) = (run, 41%N :: after).
Proof.
  induction run as [|c run IH]; simpl; intros N; [reflexivity|].
  destruct (N.eqb c 41) eqn:E; [apply N.eqb_eq in E; tauto|].
  rewrite IH by tauto. reflexivity.
Qed.

Lemma match_here_sound s filePath after :
  UserInputParser.match_here s = Some (filePath, after) ->
  s = `"localfile(" ++ filePath ++ `")" ++ after
  /\ filePath <> [] /\ ~ In 41%N filePath.
Proof.
  unfold UserInputParser.match_here.
  destruct (UserInputParser.strip_prefix `"localfile(" s) as [body|] eqn:P;
    [|discriminate].
  apply strip_prefix_sound in P.
  destruct (UserInputParser.span_before_paren body) as [run tail] eqn:S.
  apply span_before_paren_sound in S. destruct S as (B & N & T).
  destruct run as [|c run]; [discriminate|].
  destruct tail as [|t tail]; [discriminate|].
  intros [= <- <-]. destruct T as [T|(a & [= -> ->])]; [discriminate|].
  rewrite P, B. split; [reflexivity|]. split; [discriminate | exact N].
Qed.

Lemma match_here_complete filePath after :
  filePath <> [] -> ~ In 41%N filePath ->
  UserInputParser.match_here (`"localfile(" ++ filePath ++ `")" ++ after)
  = Some (filePath, after).
Proof.
  intros E N. unfold UserInputParser.match_here.
  rewrite strip_prefix_complete.
  change (filePath ++ `")" ++ after) with (filePath ++ 41%N :: after).
  rewrite span_before_paren_complete by exact N.
  destruct filePath; [contradiction | reflexivity].
Qed.

Lemma findDirective_sound s : forall before filePath after,
  UserInputParser.findDirective s = Some (before, filePath, after) ->
  s = before ++ `"localfile(" ++ filePath ++ `")" ++ after
  /\ filePath <> [] /\ ~ In 41%N filePath.
Proof.
  induction s as [|c s IH]; intros before filePath after.
  - cbn [UserInputParser.findDirective].
    destruct (UserInputParser.match_here []) as [[p a]|] eqn:M; [|discriminate].
    intros [= <- <- <-]. apply match_here_sound. exact M.
  - cbn [UserInputParser.findDirective].
    destruct (UserInputParser.match_here (c :: s)) as [[p a]|] eqn:M.
    + intros [= <- <- <-]. apply match_here_sound. exact M.
    + destruct (UserInputParser.findDirective s) as [[[b p] a]|]; [|discriminate].
      intros [= <- <- <-]. destruct (IH _ _ _ eq_refl) as (-> & E & N).
      auto.
Qed.

Lemma findDirective_complete s :
  holds_directive s -> UserInputParser.findDirective s <> None.
Proof.
  intros (before & filePath & after & -> & E & N).
  induction before as [|c before IH].
  - cbn [app]. destruct (`"localfile(" ++ filePath ++ `")" ++ after) eqn:S;
      cbn [UserInputParser.findDirective]; rewrite <- S;
      rewrite (match_here_complete after E N); discriminate.
  - cbn [app UserInputParser.findDirective].
    destruct (UserInputParser.match_here
                (c :: before ++ `"localfile(" ++ filePath ++ `")" ++ after))
      as [[p a]|]; [discriminate|].
    destruct (UserInputParser.findDirective
                (before ++ `"localfile(" ++ filePath ++ `")" ++ after))
      as [[[b p] a]|]; [discriminate | contradiction].
Qed.

Lemma findDirective_none_iff s :
  UserInputParser.findDirective s = None <-> ~ holds_directive s.
Proof.
  split.
  - intros H D. apply (findDirective_complete D). exact H.
  - intros H. destruct (UserInputParser.findDirective s) as [[[b p] a]|] eqn:F;
      [|reflexivity].
    destruct H. apply findDirective_sound in F. exists b, p, a. exact F.
Qed.

Lemma findDirective_shorter s before filePath after :
  UserInputParser.findDirective s = Some (before, filePath, after) ->
  length after < length s.
Proof.
  intros H. apply findDirective_sound in H. destruct H as (-> & _ & _).
  rewrite !length_app. simpl. lia.
Qed.

Lemma scanSegments_total : forall fuel rest,
  length rest < fuel ->
  exists segments, UserInputParser.scanSegments fuel rest = Some segments.
Proof.
  induction fuel as [|fuel IH]; intros rest L; [lia|].
  cbn [UserInputParser.scanSegments].
  destruct (UserInputParser.findDirective rest) as [[[b p] a]|] eqn:F; [|eauto].
  apply findDirective_shorter in F.
  destruct (IH a) as (segments & ->); [lia|]. eauto.
Qed.


Lemma scanSegments_files : forall fuel rest segments,
  UserInputParser.scanSegments fuel rest = Some segments ->
  existsb UserInputParser.is_file_segment segments
  = match UserInputParser.findDirective rest with Some _ => true | None => false end.
Proof.
  intros [|fuel] rest segments; [discriminate|].
  cbn [UserInputParser.scanSegments].
  destruct (UserInputParser.findDirective rest) as [[[b p] a]|].
  - destruct (UserInputParser.scanSegments fuel a); [|discriminate].
    intros [= <-]. rewrite existsb_app. simpl. apply orb_true_r.
  - intros [= <-]. destruct rest; reflexivity.
Qed.

Lemma scanSegments_tiles : forall fuel rest segments,
  UserInputParser.scanSegments fuel rest = Some segments ->
  flat_map segmentSource segments = rest.
Proof.
  induction fuel as [|fuel IH]; intros rest segments; [discriminate|].
  cbn [UserInputParser.scanSegments].
  destruct (UserInputParser.findDirective rest) as [[[b p] a]|] eqn:F.
  - destruct (UserInputParser.scanSegments fuel a) as [segs|] eqn:S; [|discriminate].
    intros [= <-]. apply findDirective_sound in F. destruct F as (-> & _ & _).
    rewrite flat_map_app. cbn [flat_map segmentSource]. rewrite (IH _ _ S).
    destruct b; simpl; rewrite <- ?app_assoc; reflexivity.
  - intros [= <-]. destruct rest; simpl; rewrite ?app_nil_r; reflexivity.
Qed.

Section ParserFacts.
Variable Json : Type.
Variable toLowerCase : jsstring -> jsstring.
Variable readFile_base64 : jsstring -> Outcome jsstring.

Local Arguments Js.lit : simpl never.

Let mime := UserInputParser.determineMimeType toLowerCase.
Let parse := UserInputParser.processUserInput Json toLowerCase readFile_base64.
Let assemble := UserInputParser.assembleParts Json toLowerCase readFile_base64.
Let consolidate := @UserInputParser.consolidateParts Json.

Lemma lastDotSegment_no_dot extension : forall current,
  ~ In 46%N extension ->
  UserInputParser.lastDotSegment extension current = current ++ extension.
Proof.
  induction extension as [|c e IH]; intros current N; simpl.
  - rewrite app_nil_r; reflexivity.
  - destruct (N.eqb c 46) eqn:E; [apply N.eqb_eq in E; simpl in N; tauto|].
    rewrite IH by (simpl in N; tauto). rewrite <- app_assoc. reflexivity.
Qed.

Lemma lastDotSegment_after_dot stem extension : forall current,
  UserInputParser.lastDotSegment (stem ++ 46%N :: extension) current
  = UserInputParser.lastDotSegment extension [].
Proof.
  induction stem as [|c stem IH]; intros current; simpl; [reflexivity|].
  destruct (N.eqb c 46); apply IH.
Qed.

(** X27. The MIME type is decided by what follows the last ['.'] of the
    path, lower-cased, and by nothing else: directories and earlier dots do
    not count, and a path without any dot is taken whole as its own
    extension. *)
Theorem mime_type_by_last_dot_segment :
  forall extension,
    ~ In 46%N extension ->
    mime extension
    = UserInputParser.mimeTypeOfExtension (toLowerCase extension)
    /\ forall stem, mime (stem ++ `"." ++ extension) = mime extension.
Proof.
  intros extension N. unfold mime, UserInputParser.determineMimeType.
  rewrite (@lastDotSegment_no_dot extension [] N). split; [reflexivity|].
  intros stem. change (stem ++ `"." ++ extension) with (stem ++ 46%N :: extension).
  rewrite lastDotSegment_after_dot, (@lastDotSegment_no_dot extension [] N).
  reflexivity.
Qed.

Lemma consolidate_joined : forall parts textBuffer,
  joined (consolidate parts textBuffer).
Proof.
  induction parts as [|[n b|t|m d] parts IH]; intros buffer; simpl.
  - destruct buffer; simpl; [exact I|]. repeat split. discriminate.
  - apply IH.
  - apply IH.
  - destruct buffer; simpl; [apply IH|]. split; [discriminate|].
    split; [exact I | apply IH].
Qed.

Lemma joined_no_empty_text (parts : list (Part Json)) :
  joined parts ->
  filter (fun p => negb (UserInputParser.is_empty_text p)) parts = parts.
Proof.
  induction parts as [|[n b|t|m d] parts IH]; simpl; [reflexivity | intros [] | |].
  - intros (T & _ & J). destruct t; [contradiction|]. simpl. rewrite IH; auto.
  - intros J. rewrite IH; auto.
Qed.

Lemma consolidate_buffer_shows : forall parts textBuffer,
  textBuffer <> [] -> consolidate parts textBuffer <> [].
Proof.
  induction parts as [|[n b|t|m d] parts IH]; intros buffer N; simpl.
  - destruct buffer; [contradiction | discriminate].
  - apply IH. exact N.
  - apply IH. destruct buffer; [contradiction | discriminate].
  - destruct buffer; [contradiction | discriminate].
Qed.

Lemma consolidate_shows_files : forall segments textBuffer,
  existsb UserInputParser.is_file_segment segments = true ->
  consolidate (assemble segments) textBuffer <> [].
Proof.
  induction segments as [|[content|filePath originalMatch] segments IH];
    intros buffer H; [discriminate| |].
  - simpl. apply IH. exact H.
  - unfold assemble. cbn [UserInputParser.assembleParts map].
    unfold UserInputParser.resolveFilePart.
    destruct (readFile_base64 filePath) as [data|error]; simpl.
    + destruct buffer; discriminate.
    + apply consolidate_buffer_shows.
      intros E. apply app_eq_nil in E. destruct E as [_ E].
      unfold Js.lit in E. simpl in E. discriminate.
Qed.

Lemma parse_with_directive fuel userInput segments :
  UserInputParser.scanSegments fuel userInput = Some segments ->
  existsb UserInputParser.is_file_segment segments = true ->
  parse fuel userInput
  = Some (PartsMessage (consolidate (assemble segments) []))
  /\ consolidate (assemble segments) [] <> []
  /\ joined (consolidate (assemble segments) []).
Proof.
  intros S F. unfold parse, UserInputParser.processUserInput. rewrite S, F.
  cbn [negb]. fold assemble. fold consolidate.
  pose proof (consolidate_joined (assemble segments) []) as J.
  pose proof (consolidate_shows_files segments [] F) as N.
  rewrite (joined_no_empty_text _ J).
  destruct (consolidate (assemble segments) []) as [|p ps] eqn:C;
    [contradiction|].
  split; [reflexivity|]. split; [discriminate | exact J].
Qed.

(** X28. The input comes back unchanged, as a plain string, exactly when it
    holds no directive; the file system is not consulted. When it holds one
    the result is a list of parts. A directive needs a closing parenthesis,
    so an input without [')'] is always returned unchanged. *)
Theorem input_without_directive_is_unchanged :
  forall userInput fuel,
    length userInput < fuel ->
    (~ holds_directive userInput ->
     parse fuel userInput = Some (TextMessage userInput))
    /\ (holds_directive userInput ->
        exists parts, parse fuel userInput = Some (PartsMessage parts))
    /\ (~ In 41%N userInput -> ~ holds_directive userInput).
Proof.
  intros userInput fuel L.
  destruct (@scanSegments_total fuel userInput L) as (segments & S).
  pose proof (@scanSegments_files _ _ _ S) as F.
  split; [|split].
  - intros H. apply findDirective_none_iff in H. rewrite H in F.
    unfold parse, UserInputParser.processUserInput. rewrite S, F. reflexivity.
  - intros H. apply findDirective_complete in H.
    destruct (UserInputParser.findDirective userInput); [|contradiction].
    destruct (@parse_with_directive _ _ _ S F) as (E & _). eauto.
  - intros N (before & filePath & after & -> & _ & _). apply N.
    apply in_or_app. right. apply in_or_app. right. apply in_or_app. right.
    left. reflexivity.
Qed.


Lemma consolidate_inlineParts : forall (parts : list (Part Json)) textBuffer,
  inlineParts (consolidate parts textBuffer) = inlineParts parts.
Proof.
  unfold inlineParts.
  induction parts as [|[n b|t|m d] parts IH]; intros buffer; simpl.
  - destruct buffer; reflexivity.
  - apply IH.
  - apply IH.
  - destruct buffer; simpl; rewrite IH; reflexivity.
Qed.

Lemma consolidate_allText : forall (parts : list (Part Json)) textBuffer,
  (forall n b, ~ In (FunctionResponse n b) parts) ->
  allText (consolidate parts textBuffer) = textBuffer ++ allText parts.
Proof.
  unfold allText.
  induction parts as [|[n b|t|m d] parts IH]; intros buffer NF; simpl.
  - destruct buffer; simpl; rewrite ?app_nil_r; reflexivity.
  - destruct (NF n b). left; reflexivity.
  - rewrite IH, app_assoc; [reflexivity|].
    intros n b I. apply (NF n b). right; exact I.
  - assert (NF' : forall n b, ~ In (FunctionResponse n b) parts)
      by (intros n b I; apply (NF n b); right; exact I).
    destruct buffer; simpl; rewrite (IH [] NF'); simpl;
      rewrite ?app_nil_r; reflexivity.
Qed.

Lemma inlineParts_assemble (segments : list UserInputParser.Segment) :
  inlineParts (assemble segments)
  = flat_map
      (fun s =>
         match s with
         | UserInputParser.FileSegment filePath _ =>
             match readFile_base64 filePath with
             | Return data => [InlineData (mime filePath) data]
             | Throw _ => []
             end
         | UserInputParser.TextSegment _ => []
         end) segments.
Proof.
  unfold inlineParts, assemble.
  induction segments as [|[content|filePath originalMatch] segs IH];
    [reflexivity | exact IH |].
  cbn [UserInputParser.assembleParts map flat_map].
  unfold UserInputParser.resolveFilePart at 1.
  destruct (readFile_base64 filePath); cbn [filter app]; [f_equal|]; exact IH.
Qed.

Lemma allText_assemble (segments : list UserInputParser.Segment) :
  allText (assemble segments)
  = flat_map
      (fun s =>
         match s with
         | UserInputParser.TextSegment content => content
         | UserInputParser.FileSegment filePath originalMatch =>
             match readFile_base64 filePath with
             | Return _ => []
             | Throw error =>
                 `"[File Error: Could not load '" ++ filePath
                   ++ `"'. Reason: " ++ message error
                   ++ `". Original placeholder: '" ++ originalMatch ++ `"']"
             end
         end) segments.
Proof.
  unfold allText, assemble.
  induction segments as [|[content|filePath originalMatch] segs IH];
    [reflexivity | |].
  - cbn [UserInputParser.assembleParts map flat_map]. f_equal. exact IH.
  - cbn [UserInputParser.assembleParts map flat_map].
    unfold UserInputParser.resolveFilePart at 1.
    destruct (readFile_base64 filePath); cbn [app]; [|f_equal]; exact IH.
Qed.

(** X30. Nothing of the input is lost or reordered. The segments cut from
    the input tile it: their sources, joined, are the input. In the part
    list every directive whose file can be read appears as an [inlineData]
    part with the MIME type of its path and the file's data, in input order;
    and the text of the parts, joined, is the text between the directives
    with a note in place of each directive whose file cannot be read. *)
Theorem parsed_parts_keep_the_input :
  forall fuel userInput segments parts,
    UserInputParser.scanSegments fuel userInput = Some segments ->
    parse fuel userInput = Some (PartsMessage parts) ->
    flat_map segmentSource segments = userInput
    /\ inlineParts parts
       = flat_map
           (fun s =>
              match s with
              | UserInputParser.FileSegment filePath _ =>
                  match readFile_base64 filePath with
                  | Return data => [InlineData (mime filePath) data]
                  | Throw _ => []
                  end
              | UserInputParser.TextSegment _ => []
              end) segments
    /\ allText parts
       = flat_map
           (fun s =>
              match s with
              | UserInputParser.TextSegment content => content
              | UserInputParser.FileSegment filePath originalMatch =>
                  match readFile_base64 filePath with
                  | Return _ => []
                  | Throw error =>
                      `"[File Error: Could not load '" ++ filePath
                        ++ `"'. Reason: " ++ message error
                        ++ `". Original placeholder: '" ++ originalMatch ++ `"']"
                  end
              end) segments.
Proof.
  intros fuel userInput segments parts S0 H.
  split; [exact (@scanSegments_tiles _ _ _ S0)|].
  destruct (existsb UserInputParser.is_file_segment segments) eqn:F.
  - destruct (@parse_with_directive _ _ _ S0 F) as (E & _ & _).
    rewrite E in H. injection H as <-. split.
    + rewrite consolidate_inlineParts. apply inlineParts_assemble.
    + rewrite consolidate_allText; [apply allText_assemble|].
      intros n b I. unfold assemble, UserInputParser.assembleParts in I.
      apply in_map_iff in I. destruct I as ([content|filePath om] & E' & _);
        [discriminate|].
      unfold UserInputParser.resolveFilePart in E'.
      destruct (readFile_base64 filePath); discriminate.
  - unfold parse, UserInputParser.processUserInput in H. rewrite S0, F in H.
    discriminate.
Qed.

End ParserFacts.

Lemma mime_type_by_last_dot_segment_witness :
  ~ In 46%N `"JPeG"
  /\ UserInputParser.determineMimeType asciiLower `"shots/2024.05/photo.JPeG"
     = `"image/jpeg"
  /\ UserInputParser.determineMimeType asciiLower `"JPeG" = `"image/jpeg".
Proof.
  assert (N : ~ In 46%N `"JPeG") by (simpl; intuition discriminate).
  destruct (@mime_type_by_last_dot_segment asciiLower `"JPeG" N) as [E S].
  split; [exact N|]. split.
  - change `"shots/2024.05/photo.JPeG" with (`"shots/2024.05/photo" ++ `"." ++ `"JPeG").
    rewrite S, E. reflexivity.
  - rewrite E. reflexivity.
Defined.

Lemma input_without_directive_is_unchanged_witness :
  length `"see localfile(notes and localfile(" < 40
  /\ ~ In 41%N `"see localfile(notes and localfile("
  /\ UserInputParser.processUserInput JsonLit asciiLower sampleFiles 40
       `"see localfile(notes and localfile("
     = Some (TextMessage `"see localfile(notes and localfile(").
Proof.
  assert (L : length `"see localfile(notes and localfile(" < 40)
    by (vm_compute; lia).
  assert (N : ~ In 41%N `"see localfile(notes and localfile(")
    by (simpl; intuition discriminate).
  destruct (@input_without_directive_is_unchanged JsonLit asciiLower sampleFiles
              `"see localfile(notes and localfile(" 40 L) as (U & _ & D).
  split; [exact L|]. split; [exact N|]. exact (U (D N)).
Defined.


Lemma parsed_parts_keep_the_input_witness :
  exists segments parts,
    UserInputParser.scanSegments 100 samplePrompt = Some segments
    /\ UserInputParser.processUserInput JsonLit asciiLower sampleFiles 100
         samplePrompt = Some (PartsMessage parts)
    /\ flat_map segmentSource segments = samplePrompt
    /\ inlineParts parts = [InlineData `"text/markdown" `"IyBQbGFu"].
Proof.
  destruct (UserInputParser.scanSegments 100 samplePrompt) as [segments|] eqn:S;
    [|vm_compute in S; discriminate].
  destruct (UserInputParser.processUserInput JsonLit asciiLower sampleFiles 100
              samplePrompt) as [[text|parts]|] eqn:P;
    try (vm_compute in P; discriminate).
  exists segments, parts.
  destruct (@parsed_parts_keep_the_input JsonLit asciiLower sampleFiles
              100 samplePrompt segments parts S P) as (T & I & _).
  split; [reflexivity|]. split; [reflexivity|]. split; [exact T|].
  rewrite I. vm_compute in S. injection S as <-. vm_compute. reflexivity.
Defined.
